(** * Shared memory manager of the inference server

    A shallow embedding of [src/core/shared_memory_manager.cc]
    (class [SharedMemoryManager] and the file-local helpers around the
    operating-system calls), followed by the properties of the region
    table that the design document states about it.

    Conventions of the embedding:
    - [size_t], [int], [void*] are integers of [Z]; pointer arithmetic
      wraps at 64 bits ([ptr_add]);
    - [std::map<std::string, std::unique_ptr<SharedMemoryInfo>>] is an
      association list kept strictly sorted by key ([StdMap]), iterated
      in that order as the C++ container is;
    - the operating system and the CUDA runtime are an oracle ([OS])
      that answers each call from the history of calls made so far;
      every call made is recorded, newest first, in the [trace] of the
      [World], together with the acquisitions and releases of
      [register_mu_];
    - [LOG_VERBOSE] and [LOG_ERROR] only write to the log and are left
      out. *)

From Stdlib Require Import ZArith List String Ascii Bool Lia.
From Stdlib Require Import Sorting.Sorted Structures.OrderedTypeEx.
From Stdlib Require Import DecimalString.
Import ListNotations.

Local Open Scope list_scope.
Local Open Scope string_scope.
Local Open Scope Z_scope.

(** ** The ordered map [std::map<std::string, V>] *)

Module StdMap.

Section Map.
Context {V : Type}.

Definition t : Type := list (string * V).

Definition key_lt (a b : string) : Prop := String.compare a b = Lt.

Definition keys (m : t) : list string := map fst m.

(** Class invariant of the container: keys strictly increasing. *)
Definition ok (m : t) : Prop := StronglySorted key_lt (keys m).

(** [m.find(k)]; [None] stands for [m.end()]. *)
Fixpoint find (k : string) (m : t) : option V :=
  match m with
  | [] => None
  | (k', v) :: m' => if String.eqb k' k then Some v else find k m'
  end.

(** [m.insert(std::make_pair(k, v))]: an existing key is kept. *)
Fixpoint insert (k : string) (v : V) (m : t) : t :=
  match m with
  | [] => [(k, v)]
  | (k', v') :: m' =>
      match String.compare k k' with
      | Lt => (k, v) :: m
      | Eq => m
      | Gt => (k', v') :: insert k v m'
      end
  end.

(** [m.erase(it)] for the iterator [it] of key [k]. *)
Fixpoint erase (k : string) (m : t) : t :=
  match m with
  | [] => []
  | (k', v') :: m' =>
      if String.eqb k' k then m' else (k', v') :: erase k m'
  end.

(** An iterator is named by the key of the node it points at;
    [None] is [m.end()]. *)
Definition iterator : Type := option string.

Definition begin (m : t) : iterator :=
  match m with
  | [] => None
  | (k, _) :: _ => Some k
  end.

(** [++it] for the iterator of key [k]: the in-order successor, as
    long as the node is still in the map.  Incrementing the iterator
    of an erased node has no defined behaviour: [None]. *)
Fixpoint increment (k : string) (m : t) : option iterator :=
  match m with
  | [] => None
  | (k', _) :: m' =>
      if String.eqb k' k then Some (begin m') else increment k m'
  end.

End Map.

Arguments t : clear implicits.

End StdMap.


(** ** Data model *)

(** [RequestStatusCode]: the codes this translation unit uses (the
    enumeration itself is declared in the protocol definitions). *)
Inductive RequestStatusCode : Type :=
| SUCCESS
| INTERNAL
| INVALID_ARG
| ALREADY_EXISTS.

(** [Status]: a code and a message; [Status::Success] carries no
    message. *)
Record Status : Type := mkStatus {
  status_code : RequestStatusCode;
  status_msg : string
}.

Definition Status_Success : Status := mkStatus SUCCESS EmptyString.

Definition IsOk (s : Status) : bool :=
  match status_code s with
  | SUCCESS => true
  | _ => false
  end.

Inductive MemoryType : Type := MEMORY_CPU | MEMORY_GPU.

(** [SharedMemoryInfo], fields in the order of its constructor:
    [SharedMemoryInfo(name, shm_key, offset, byte_size, shm_fd,
    mapped_addr, kind, device_id)]. *)
Record SharedMemoryInfo : Type := mkInfo {
  name_ : string;
  shm_key_ : string;
  offset_ : Z;
  byte_size_ : Z;
  shm_fd_ : Z;
  mapped_addr_ : Z;
  kind_ : MemoryType;
  device_id_ : Z
}.

(** [cudaIpcMemHandle_t] is an opaque block of bytes. *)
Definition cudaIpcMemHandle_t : Type := string.

Definition cudaSuccess : Z := 0.

(** [MAP_FAILED] is [(void* )-1]. *)
Definition MAP_FAILED : Z := 2 ^ 64 - 1.

(** [(uint8_t* )p + n] on a 64-bit machine. *)
Definition ptr_add (p n : Z) : Z := (p + n) mod 2 ^ 64.

(** ** The world outside the table *)

(** What the manager does to the outside, one constructor per call. *)
Inductive Event : Type :=
| EvLock
| EvUnlock
| EvShmOpen (shm_key : string) (ret : Z)
| EvMmap (byte_size shm_fd offset ret : Z)
| EvMunmap (addr byte_size ret : Z)
| EvClose (fd ret : Z)
| EvCudaSetDevice (device_id : Z)
| EvCudaIpcOpenMemHandle (handle : cudaIpcMemHandle_t) (err ptr : Z)
| EvCudaIpcCloseMemHandle (ptr err : Z).

(** The answers of the operating system and of the CUDA runtime, each
    a function of the calls made before (newest first). *)
Record OS : Type := mkOS {
  os_shm_open : list Event -> string -> Z;
  os_mmap : list Event -> Z -> Z -> Z -> Z;
  os_munmap : list Event -> Z -> Z -> Z;
  os_close : list Event -> Z -> Z;
  os_cudaIpcOpenMemHandle : list Event -> cudaIpcMemHandle_t -> Z * Z;
  os_cudaIpcCloseMemHandle : list Event -> Z -> Z;
  os_cudaGetErrorString : Z -> string
}.

Definition Table : Type := StdMap.t SharedMemoryInfo.

(** The manager's member [shared_memory_map_] and the calls made so
    far. *)
Record World : Type := mkWorld {
  shared_memory_map_ : Table;
  trace : list Event
}.

(** ** A state monad over the world *)

Definition M (A : Type) : Type := World -> A * World.

Definition ret {A} (a : A) : M A := fun w => (a, w).

Definition bind {A B} (m : M A) (k : A -> M B) : M B :=
  fun w => let (a, w') := m w in k a w'.

Declare Scope shm_scope.
Delimit Scope shm_scope with shm.
Notation "x <- m ;; k" := (bind m (fun x => k))
  (at level 61, m at next level, right associativity) : shm_scope.
Notation "m ;;; k" := (bind m (fun _ => k))
  (at level 61, right associativity) : shm_scope.
Local Open Scope shm_scope.

Definition get_map : M Table := fun w => (shared_memory_map_ w, w).

Definition get_trace : M (list Event) := fun w => (trace w, w).

Definition emit (e : Event) : M unit :=
  fun w => (tt, mkWorld (shared_memory_map_ w) (e :: trace w)).

Definition map_insert (name : string) (info : SharedMemoryInfo) : M unit :=
  fun w => (tt, mkWorld (StdMap.insert name info (shared_memory_map_ w)) (trace w)).

Definition map_erase (name : string) : M unit :=
  fun w => (tt, mkWorld (StdMap.erase name (shared_memory_map_ w)) (trace w)).

(** The macro [RETURN_IF_ERROR(S)]: leave the function with the status
    of [S] when that is not Ok, go on otherwise. *)
Definition RETURN_IF_ERROR (s : M Status) (k : M Status) : M Status :=
  st <- s ;; if IsOk st then k else ret st.

(** [std::lock_guard<std::mutex> lock(register_mu_)]: taken on entry,
    released on every way out of the function. *)
Definition lock_guard {A} (body : M A) : M A :=
  emit EvLock ;;; r <- body ;; emit EvUnlock ;;; ret r.

(** An event that is a call into the operating system or the CUDA
    runtime (everything but the mutex). *)
Definition is_os_call (e : Event) : bool :=
  match e with
  | EvLock | EvUnlock => false
  | _ => true
  end.

Definition os_calls (tr : list Event) : list Event := filter is_os_call tr.

Definition is_close_of (fd : Z) (e : Event) : bool :=
  match e with
  | EvClose fd' _ => Z.eqb fd' fd
  | _ => false
  end.

(** What a call that may leave defined C++ behaviour comes to: it
    returns, or it reaches undefined behaviour in the world [w], or the
    model's loop bound was too small. *)
Inductive Outcome (A : Type) : Type :=
| Returns (a : A) (w : World)
| Undefined (w : World)
| OutOfFuel.

Arguments Returns {A} a w.
Arguments Undefined {A} w.
Arguments OutOfFuel {A}.

(** One entry of [SharedMemoryStatus]: name, then either the system
    variant (key, offset) or the CUDA variant (device), then the size. *)
Inductive SharedMemoryRegionStatus : Type :=
| SystemSharedMemory (name shared_memory_key : string) (offset byte_size : Z)
| CudaSharedMemory (name : string) (device_id byte_size : Z).

Section Manager.

Variable os : OS.

(** The build option [TRTIS_ENABLE_GPU]. *)
Variable TRTIS_ENABLE_GPU : bool.

(** ** Operating-system primitives (the anonymous namespace) *)

Definition OpenSharedMemoryRegion (shm_key : string) : M (Status * Z) :=
  h <- get_trace ;;
  let shm_fd := os_shm_open os h shm_key in
  emit (EvShmOpen shm_key shm_fd) ;;;
  if shm_fd =? -1 then
    ret (mkStatus INTERNAL
           ("Unable to open shared memory region: '" ++ shm_key ++ "'"),
         shm_fd)
  else ret (Status_Success, shm_fd).

Definition MapSharedMemory (shm_fd offset byte_size : Z) : M (Status * Z) :=
  h <- get_trace ;;
  let mapped_addr := os_mmap os h byte_size shm_fd offset in
  emit (EvMmap byte_size shm_fd offset mapped_addr) ;;;
  if mapped_addr =? MAP_FAILED then
    ret (mkStatus INTERNAL "Unable to process address space", mapped_addr)
  else ret (Status_Success, mapped_addr).

Definition CloseSharedMemoryRegion (shm_fd : Z) : M Status :=
  h <- get_trace ;;
  let tmp := os_close os h shm_fd in
  emit (EvClose shm_fd tmp) ;;;
  if tmp =? -1 then
    ret (mkStatus INTERNAL "Unable to close shared memory region")
  else ret Status_Success.

Definition UnmapSharedMemory (mapped_addr byte_size : Z) : M Status :=
  h <- get_trace ;;
  let tmp_fd := os_munmap os h mapped_addr byte_size in
  emit (EvMunmap mapped_addr byte_size tmp_fd) ;;;
  if tmp_fd =? -1 then
    ret (mkStatus INTERNAL "Unable to munmap shared memory region")
  else ret Status_Success.

(** Only in builds with [TRTIS_ENABLE_GPU]. *)
Definition OpenCudaIPCRegion (cuda_shm_handle : cudaIpcMemHandle_t)
    (device_id : Z) : M (Status * Z) :=
  emit (EvCudaSetDevice device_id) ;;;
  h <- get_trace ;;
  let (err, data_ptr) := os_cudaIpcOpenMemHandle os h cuda_shm_handle in
  emit (EvCudaIpcOpenMemHandle cuda_shm_handle err data_ptr) ;;;
  if negb (err =? cudaSuccess) then
    ret (mkStatus INTERNAL
           ("failed to open CUDA IPC handle: " ++ os_cudaGetErrorString os err),
         data_ptr)
  else ret (Status_Success, data_ptr).

Definition cudaIpcCloseMemHandle (ptr : Z) : M Z :=
  h <- get_trace ;;
  let err := os_cudaIpcCloseMemHandle os h ptr in
  emit (EvCudaIpcCloseMemHandle ptr err) ;;;
  ret err.

(** ** Registration *)

(** The loop "don't re-open if shared memory is already open": the
    descriptor of the first record, in map order, whose [shm_key_]
    equals [shm_key]; [shm_fd] stays [-1] when there is none. *)
Fixpoint scan_shm_fd (shm_key : string) (m : Table) : Z :=
  match m with
  | [] => -1
  | (_, info) :: m' =>
      if String.eqb (shm_key_ info) shm_key then shm_fd_ info
      else scan_shm_fd shm_key m'
  end.

Definition RegisterSharedMemory (name shm_key : string)
    (offset byte_size : Z) : M Status :=
  lock_guard (
    m <- get_map ;;
    match StdMap.find name m with
    | Some _ =>
        ret (mkStatus ALREADY_EXISTS
               ("shared memory region '" ++ name ++ "' is already registered"))
    | None =>
        let shm_fd := scan_shm_fd shm_key m in
        r <- (if shm_fd =? -1 then OpenSharedMemoryRegion shm_key
              else ret (Status_Success, shm_fd)) ;;
        let (opened, shm_fd) := r : Status * Z in
        if negb (IsOk opened) then ret opened
        else
          r' <- MapSharedMemory shm_fd offset byte_size ;;
          let (status, mapped_addr) := r' : Status * Z in
          if negb (IsOk status) then
            ret (mkStatus INVALID_ARG
                   ("failed to register shared memory region '" ++ name ++ "'"))
          else
            map_insert name
              (mkInfo name shm_key offset byte_size shm_fd mapped_addr
                      MEMORY_CPU 0) ;;;
            ret Status_Success
    end).

(** Only in builds with [TRTIS_ENABLE_GPU]. *)
Definition RegisterCudaSharedMemory (name : string)
    (cuda_shm_handle : cudaIpcMemHandle_t) (byte_size device_id : Z)
    : M Status :=
  lock_guard (
    m <- get_map ;;
    match StdMap.find name m with
    | Some _ =>
        ret (mkStatus ALREADY_EXISTS
               ("shared memory region '" ++ name ++ "' is already registered"))
    | None =>
        r <- OpenCudaIPCRegion cuda_shm_handle device_id ;;
        let (status, mapped_addr) := r : Status * Z in
        if negb (IsOk status) then
          ret (mkStatus INVALID_ARG
                 ("failed to register shared memory region '" ++ name ++ "'"))
        else
          map_insert name
            (mkInfo name EmptyString 0 byte_size (-1) mapped_addr
                    MEMORY_GPU device_id) ;;;
          ret Status_Success
    end).

(** ** Unregistration *)

(** The loop under "if no other region with same shm_key then close":
    [last_one] starts [true] and becomes [false] at the first record
    of the map, the one being removed included, whose [shm_key_]
    equals [shm_key]. *)
Fixpoint scan_last_one (shm_key : string) (m : Table) : bool :=
  match m with
  | [] => true
  | (_, info) :: m' =>
      if String.eqb (shm_key_ info) shm_key then false
      else scan_last_one shm_key m'
  end.

(** "remove region info from shared_memory_map_", then the final
    [return Status::Success]. *)
Definition erase_and_succeed (name : string) : M Status :=
  map_erase name ;;; ret Status_Success.

(** The close step of the CPU branch, from [if (last_one)] to the end
    of the function: the descriptor is closed when [last_one] holds,
    a failure of that leaves the function, and the record is erased
    after it. *)
Definition close_step (name : string) (it : SharedMemoryInfo)
    (last_one : bool) : M Status :=
  RETURN_IF_ERROR
    (if last_one then CloseSharedMemoryRegion (shm_fd_ it)
     else ret Status_Success)
    (erase_and_succeed name).

Definition UnregisterSharedMemoryHelper (name : string) : M Status :=
  m <- get_map ;;
  match StdMap.find name m with
  | Some it =>
      match kind_ it with
      | MEMORY_CPU =>
          RETURN_IF_ERROR
            (UnmapSharedMemory (mapped_addr_ it) (byte_size_ it))
            (let last_one := scan_last_one (shm_key_ it) m in
             close_step name it last_one)
      | MEMORY_GPU =>
          if TRTIS_ENABLE_GPU then
            err <- cudaIpcCloseMemHandle (mapped_addr_ it) ;;
            if negb (err =? cudaSuccess) then
              ret (mkStatus INTERNAL
                     ("failed to close CUDA IPC handle: "
                      ++ os_cudaGetErrorString os err))
            else erase_and_succeed name
          else
            ret (mkStatus INVALID_ARG
                   ("failed to unregister CUDA shared memory region: '"
                    ++ name ++ "', GPUs not supported"))
      end
  | None => ret Status_Success
  end.

Definition UnregisterSharedMemory (name : string) : M Status :=
  lock_guard (UnregisterSharedMemoryHelper name).

(** The range-for over [shared_memory_map_]: [it] is the loop's
    iterator.  The body unregisters the current name, which on
    success erases the very node [it] points at; [++it] then follows
    [StdMap.increment]. *)
Fixpoint unregister_all_loop (fuel : nat) (it : StdMap.iterator)
    (unregister_fails : list string) (w : World) : Outcome (list string) :=
  match it with
  | None => Returns unregister_fails w
  | Some first =>
      match fuel with
      | O => OutOfFuel
      | S fuel' =>
          let (unregister_status, w1) := UnregisterSharedMemoryHelper first w in
          let fails1 :=
            if IsOk unregister_status then unregister_fails
            else (unregister_fails ++ [first])%list in
          match StdMap.increment first (shared_memory_map_ w1) with
          | None => Undefined w1
          | Some it' => unregister_all_loop fuel' it' fails1 w1
          end
      end
  end.

Definition unregister_error_message (unregister_fails : list string) : string :=
  fold_left (fun error_message unreg_fail => error_message ++ unreg_fail ++ " ,")
    unregister_fails
    "Failed to unregister the following shared memory regions: ".

Definition UnregisterAllSharedMemory (w : World) : Outcome Status :=
  let w0 := snd (emit EvLock w) in
  match unregister_all_loop (List.length (shared_memory_map_ w0))
          (StdMap.begin (shared_memory_map_ w0)) [] w0 with
  | Returns unregister_fails w1 =>
      match unregister_fails with
      | [] => Returns Status_Success (snd (emit EvUnlock w1))
      | _ :: _ =>
          Returns (mkStatus INTERNAL (unregister_error_message unregister_fails))
                  (snd (emit EvUnlock w1))
      end
  | Undefined w1 => Undefined w1
  | OutOfFuel => OutOfFuel
  end.

(** ** Status report and address resolution *)

Definition region_status (info : SharedMemoryInfo) : SharedMemoryRegionStatus :=
  match kind_ info with
  | MEMORY_CPU =>
      SystemSharedMemory (name_ info) (shm_key_ info) (offset_ info)
                         (byte_size_ info)
  | MEMORY_GPU =>
      CudaSharedMemory (name_ info) (device_id_ info) (byte_size_ info)
  end.

(** [shm_status] is the message the entries are added to. *)
Definition GetSharedMemoryStatus (shm_status : list SharedMemoryRegionStatus)
    : M (Status * list SharedMemoryRegionStatus) :=
  lock_guard (
    m <- get_map ;;
    ret (Status_Success,
         (shm_status ++ map (fun shm_info => region_status (snd shm_info)) m)%list)).

(** The result pairs the status with what was stored through
    [shm_mapped_addr]: [None] when nothing was stored. *)
Definition SharedMemoryAddress (name : string) (offset byte_size : Z)
    : M (Status * option Z) :=
  m <- get_map ;;
  match StdMap.find name m with
  | None =>
      ret (mkStatus INTERNAL
             ("Unable to find shared memory region: '" ++ name ++ "'"),
           None)
  | Some it =>
      match kind_ it with
      | MEMORY_CPU =>
          ret (Status_Success,
               Some (ptr_add (ptr_add (mapped_addr_ it) (offset_ it)) offset))
      | MEMORY_GPU =>
          ret (Status_Success, Some (ptr_add (mapped_addr_ it) offset))
      end
  end.

End Manager.

(** [SharedMemoryManager::Create]: a manager with an empty table. *)
Definition Create (history : list Event) : World := mkWorld [] history.

(** Whether descriptor [fd] is open after the calls of [tr] (newest
    first): the latest call about it is the [shm_open] that returned
    it, not a [close] of it. *)
Fixpoint left_open (fd : Z) (tr : list Event) : bool :=
  match tr with
  | [] => false
  | EvShmOpen _ ret :: tr' => if ret =? fd then true else left_open fd tr'
  | EvClose fd' _ :: tr' => if fd' =? fd then false else left_open fd tr'
  | _ :: tr' => left_open fd tr'
  end.

(** A call that ran between taking and releasing [register_mu_]: its
    trace is the one before, then [EvLock], then what the body did,
    then [EvUnlock]. *)
Definition under_lock (before after : list Event) : Prop :=
  exists delta, after = EvUnlock :: (delta ++ EvLock :: before)%list.

(** ** The table invariant *)

(** All live CPU records with the same [shm_key_] carry one and the
    same descriptor. *)
Definition shared_descriptor (m : Table) : Prop :=
  forall k1 r1 k2 r2,
    In (k1, r1) m -> In (k2, r2) m ->
    kind_ r1 = MEMORY_CPU -> kind_ r2 = MEMORY_CPU ->
    shm_key_ r1 = shm_key_ r2 -> shm_fd_ r1 = shm_fd_ r2.

(** What holds of every table the manager builds, in a build with
    ([gpu = true]) or without device support: the container is sorted;
    a CPU record has a real descriptor; a GPU record exists in device
    builds only and has the empty key and descriptor [-1], as
    [RegisterCudaSharedMemory] fills it in; in device builds no CPU
    record has the empty key; and descriptors are shared per key. *)
Record table_inv (gpu : bool) (m : Table) : Prop := mk_table_inv {
  inv_sorted : StdMap.ok m;
  inv_cpu_fd :
    forall k r, In (k, r) m -> kind_ r = MEMORY_CPU -> shm_fd_ r <> -1;
  inv_gpu :
    forall k r, In (k, r) m -> kind_ r = MEMORY_GPU ->
      gpu = true /\ shm_key_ r = EmptyString /\ shm_fd_ r = -1;
  inv_cpu_key :
    gpu = true ->
    forall k r, In (k, r) m -> kind_ r = MEMORY_CPU ->
      shm_key_ r <> EmptyString;
  inv_shared : shared_descriptor m
}.

(** [shm_open] fails on the empty name (POSIX implementations answer
    [EINVAL]). *)
Definition shm_open_rejects_empty_name (os : OS) : Prop :=
  forall h, os_shm_open os h EmptyString = -1.

(** The public operations of the manager. *)
Inductive Op : Type :=
| OpRegister (name shm_key : string) (offset byte_size : Z)
| OpRegisterCuda (name : string) (cuda_shm_handle : cudaIpcMemHandle_t)
    (byte_size device_id : Z)
| OpUnregister (name : string)
| OpUnregisterAll
| OpGetStatus (shm_status : list SharedMemoryRegionStatus)
| OpAddress (name : string) (offset byte_size : Z).

(** The world after an operation; [None] when the operation is not
    part of the build or does not return. *)
Definition exec (os : OS) (gpu : bool) (o : Op) (w : World) : option World :=
  match o with
  | OpRegister name shm_key offset byte_size =>
      Some (snd (RegisterSharedMemory os name shm_key offset byte_size w))
  | OpRegisterCuda name handle byte_size device_id =>
      if gpu then
        Some (snd (RegisterCudaSharedMemory os name handle byte_size device_id w))
      else None
  | OpUnregister name => Some (snd (UnregisterSharedMemory os gpu name w))
  | OpUnregisterAll =>
      match UnregisterAllSharedMemory os gpu w with
      | Returns _ w' => Some w'
      | _ => None
      end
  | OpGetStatus shm_status => Some (snd (GetSharedMemoryStatus shm_status w))
  | OpAddress name offset byte_size =>
      Some (snd (SharedMemoryAddress name offset byte_size w))
  end.

(** ** Sample environments and states *)

(** An operating system that hands out a new descriptor and a new
    address at each call, rejects the empty name and otherwise fails
    exactly where the three flags say. *)
Definition os_sample (mmap_ok munmap_ok close_ok : bool) : OS :=
  mkOS
    (fun h shm_key =>
       match shm_key with
       | EmptyString => -1
       | _ => 3 + Z.of_nat (List.length h)
       end)
    (fun h _ _ _ =>
       if mmap_ok then 4096 * Z.of_nat (List.length h) else MAP_FAILED)
    (fun _ _ _ => if munmap_ok then 0 else -1)
    (fun _ _ => if close_ok then 0 else -1)
    (fun h _ => (0, 4096 * Z.of_nat (List.length h)))
    (fun _ _ => 0)
    (fun _ => "unknown error").

Definition os_good : OS := os_sample true true true.

(** An operating system like [os_good] that also opens the empty
    name. *)
Definition os_lenient : OS :=
  mkOS
    (fun h _ => 3 + Z.of_nat (List.length h))
    (os_mmap os_good) (os_munmap os_good) (os_close os_good)
    (os_cudaIpcOpenMemHandle os_good) (os_cudaIpcCloseMemHandle os_good)
    (os_cudaGetErrorString os_good).

(** One host region [a] on key [/k] ... *)
Definition w_a : World :=
  snd (RegisterSharedMemory os_good "a" "/k" 0 16 (Create [])).

(** ... and a second one, [b], on the same key. *)
Definition w_ab : World :=
  snd (RegisterSharedMemory os_good "b" "/k" 16 16 w_a).

Definition info_a : SharedMemoryInfo :=
  mkInfo "a" "/k" 0 16 4 8192 MEMORY_CPU 0.

Definition info_b : SharedMemoryInfo :=
  mkInfo "b" "/k" 16 16 4 20480 MEMORY_CPU 0.

(** ** Vocabulary of the further properties *)

Definition is_close (e : Event) : bool :=
  match e with
  | EvClose _ _ => true
  | _ => false
  end.

(** The [close] calls of a trace. *)
Definition closes (tr : list Event) : list Event := filter is_close tr.

(** The [name] field of a status entry. *)
Definition region_name (s : SharedMemoryRegionStatus) : string :=
  match s with
  | SystemSharedMemory name _ _ _ => name
  | CudaSharedMemory name _ _ => name
  end.

(** Every record sits in the map under its own [name_]. *)
Definition names_consistent (m : Table) : Prop :=
  forall k r, In (k, r) m -> name_ r = k.

(** A device region [g] beside the host region [a]. *)
Definition w_ag : World :=
  snd (RegisterCudaSharedMemory os_good "g" "handle" 64 1 w_a).

Definition info_g : SharedMemoryInfo :=
  mkInfo "g" EmptyString 0 64 (-1) 24576 MEMORY_GPU 1.

(** A device build on [os_lenient]: a device region [g], then the host
    regions [h1] and [h2], both on the empty key. *)
Definition w_g : World :=
  snd (RegisterCudaSharedMemory os_lenient "g" "handle" 8 0 (Create [])).

Definition w_gh1 : World :=
  snd (RegisterSharedMemory os_lenient "h1" EmptyString 0 8 w_g).

Definition w_gh2 : World :=
  snd (RegisterSharedMemory os_lenient "h2" EmptyString 8 8 w_gh1).

(** * Shape and data-type utilities of the backends

    [src/backends/tensorflow/tf_utils.cc] and
    [src/backends/tensorrt/plan_utils.cc].  [DimsList] (a repeated
    [int64] field) is a list of integers; the integer types of the
    shapes are [Z]. *)

(** [DataType] of the model configuration, with the enumerators the
    conversions name. *)
Inductive DataType : Type :=
| TYPE_INVALID
| TYPE_BOOL
| TYPE_UINT8
| TYPE_UINT16
| TYPE_UINT32
| TYPE_UINT64
| TYPE_INT8
| TYPE_INT16
| TYPE_INT32
| TYPE_INT64
| TYPE_FP16
| TYPE_FP32
| TYPE_FP64
| TYPE_STRING.

Scheme Equality for DataType.

Definition DimsList : Type := list Z.

(** [std::to_string] of an integer. *)
Definition to_string (z : Z) : string := NilZero.string_of_int (Z.to_int z).

(** [for (int i = first; ...; ++i)] run [count] times over a body that
    may [return]: [Some r] is the value the first returning iteration
    returned, [None] says the loop ran to its end. *)
Fixpoint for_loop {R : Type} (count i : nat) (body : nat -> option R)
    : option R :=
  match count with
  | O => None
  | S count' =>
      match body i with
      | Some r => Some r
      | None => for_loop count' (S i) body
      end
  end.

Module TfUtils.

(** [TRTISTF_DataType], with the enumerators the conversions name. *)
Inductive TRTISTF_DataType : Type :=
| TRTISTF_TYPE_INVALID
| TRTISTF_TYPE_BOOL
| TRTISTF_TYPE_UINT8
| TRTISTF_TYPE_UINT16
| TRTISTF_TYPE_UINT32
| TRTISTF_TYPE_UINT64
| TRTISTF_TYPE_INT8
| TRTISTF_TYPE_INT16
| TRTISTF_TYPE_INT32
| TRTISTF_TYPE_INT64
| TRTISTF_TYPE_FP16
| TRTISTF_TYPE_FP32
| TRTISTF_TYPE_FP64
| TRTISTF_TYPE_STRING.

(** [TRTISTF_Shape]: the array [dims_] with its [rank_] entries. *)
Definition TRTISTF_Shape : Type := list Z.

Definition rank_ (shape : TRTISTF_Shape) : nat := List.length shape.

Definition dims_ (shape : TRTISTF_Shape) (i : nat) : Z := nth i shape 0.

Definition CompareDimsExact (model_shape : TRTISTF_Shape) (dims : DimsList)
    (supports_batching : bool) : bool :=
  if supports_batching
     && ((rank_ model_shape =? 0)%nat || negb (dims_ model_shape 0 =? -1))
  then false
  else
    let off := if supports_batching then 1%nat else 0%nat in
    if negb (rank_ model_shape =? List.length dims + off)%nat then false
    else
      match for_loop (List.length dims) 0
              (fun i =>
                 if negb (dims_ model_shape (i + off) =? nth i dims 0)
                 then Some false else None) with
      | Some r => r
      | None => true
      end.

(** The loop of [ShapeToString]: [idx] is incremented in the body and
    again by the loop header. *)
Fixpoint ShapeToString_loop (fuel : nat) (shape : TRTISTF_Shape)
    (start_idx idx : nat) (str : string) : string :=
  match fuel with
  | O => str
  | S fuel' =>
      if (idx <? rank_ shape)%nat then
        let dim := dims_ shape idx in
        let str1 :=
          if (start_idx <=? idx)%nat then
            (if (start_idx <? idx)%nat then str ++ "," else str)
            ++ to_string dim
          else str in
        ShapeToString_loop fuel' shape start_idx (S (S idx)) str1
      else str
  end.

(** Calls with one argument take [start_idx] to be 0. *)
Definition ShapeToString (shape : TRTISTF_Shape) (start_idx : nat) : string :=
  ShapeToString_loop (rank_ shape) shape start_idx start_idx "[" ++ "]".

Definition ConvertDataType (dtype : TRTISTF_DataType) : DataType :=
  match dtype with
  | TRTISTF_TYPE_INVALID => TYPE_INVALID
  | TRTISTF_TYPE_BOOL => TYPE_BOOL
  | TRTISTF_TYPE_UINT8 => TYPE_UINT8
  | TRTISTF_TYPE_UINT16 => TYPE_UINT16
  | TRTISTF_TYPE_UINT32 => TYPE_UINT32
  | TRTISTF_TYPE_UINT64 => TYPE_UINT64
  | TRTISTF_TYPE_INT8 => TYPE_INT8
  | TRTISTF_TYPE_INT16 => TYPE_INT16
  | TRTISTF_TYPE_INT32 => TYPE_INT32
  | TRTISTF_TYPE_INT64 => TYPE_INT64
  | TRTISTF_TYPE_FP16 => TYPE_FP16
  | TRTISTF_TYPE_FP32 => TYPE_FP32
  | TRTISTF_TYPE_FP64 => TYPE_FP64
  | TRTISTF_TYPE_STRING => TYPE_STRING
  end.

(** The overload [TRTISTF_DataType ConvertDataType(DataType)]. *)
Definition ConvertDataType_to_tf (dtype : DataType) : TRTISTF_DataType :=
  match dtype with
  | TYPE_INVALID => TRTISTF_TYPE_INVALID
  | TYPE_BOOL => TRTISTF_TYPE_BOOL
  | TYPE_UINT8 => TRTISTF_TYPE_UINT8
  | TYPE_UINT16 => TRTISTF_TYPE_UINT16
  | TYPE_UINT32 => TRTISTF_TYPE_UINT32
  | TYPE_UINT64 => TRTISTF_TYPE_UINT64
  | TYPE_INT8 => TRTISTF_TYPE_INT8
  | TYPE_INT16 => TRTISTF_TYPE_INT16
  | TYPE_INT32 => TRTISTF_TYPE_INT32
  | TYPE_INT64 => TRTISTF_TYPE_INT64
  | TYPE_FP16 => TRTISTF_TYPE_FP16
  | TYPE_FP32 => TRTISTF_TYPE_FP32
  | TYPE_FP64 => TRTISTF_TYPE_FP64
  | TYPE_STRING => TRTISTF_TYPE_STRING
  end.

Definition CompareDataType (model_dtype : TRTISTF_DataType) (dtype : DataType)
    : bool :=
  let cdtype := ConvertDataType model_dtype in
  if DataType_beq cdtype TYPE_INVALID then false
  else DataType_beq dtype cdtype.

Section WithDimsListToString.

(** [DimsListToString] of the model-configuration utilities. *)
Variable DimsListToString : DimsList -> string.

Definition CompareDimsSupported (model_name tensor_name : string)
    (model_shape : TRTISTF_Shape) (dims : DimsList) (supports_batching : bool)
    : Status :=
  if supports_batching
     && ((rank_ model_shape =? 0)%nat || negb (dims_ model_shape 0 =? -1))
  then
    mkStatus INVALID_ARG
      ("unable to load model '" ++ model_name ++
       "', model configuration supports batching but first dimension of "
       ++ "tensor '" ++ tensor_name ++
       "' expected by framework is not a variable-size batch dimension: " ++
       ShapeToString model_shape 0 ++
       " whereas model configuration shape is: " ++ DimsListToString dims)
  else
    let nonbatch_start_idx := if supports_batching then 1%nat else 0%nat in
    let mismatch :=
      mkStatus INVALID_ARG
        ("unable to load model '" ++ model_name ++ "', tensor '" ++
         tensor_name ++ "' shape expected by framework " ++
         ShapeToString model_shape nonbatch_start_idx ++
         " doesn't match model configuration shape " ++
         DimsListToString dims) in
    if negb (rank_ model_shape =? List.length dims + nonbatch_start_idx)%nat
    then mismatch
    else
      match for_loop (List.length dims) 0
              (fun i =>
                 let model_dim := dims_ model_shape (i + nonbatch_start_idx) in
                 if model_dim =? -1 then None
                 else if negb (model_dim =? nth i dims 0) then Some mismatch
                 else None) with
      | Some st => st
      | None => Status_Success
      end.

End WithDimsListToString.

End TfUtils.

Module PlanUtils.

(** [nvinfer1::DataType] and [nvinfer1::TensorFormat], with the
    enumerators the conversions name. *)
Inductive nvinfer1_DataType : Type := kFLOAT | kHALF | kINT8 | kINT32.

Inductive nvinfer1_TensorFormat : Type :=
| kLINEAR
| kCHW2
| kCHW4
| kHWC8
| kCHW16
| kCHW32.

Inductive MemoryFormat : Type :=
| LINEAR
| CHW2
| CHW4
| HCW8
| CHW16
| CHW32
| INVALID.

(** [nvinfer1::Dims]: the count [nbDims] and the array [d]. *)
Record Dims : Type := mkDims {
  nbDims : Z;
  d : list Z
}.

(** [dims.d[i]] *)
Definition d_at (dims : Dims) (i : nat) : Z := nth i (d dims) 0.

(** The conversion [(int)] of an [int64_t]. *)
Definition to_int (z : Z) : Z := (z + 2 ^ 31) mod 2 ^ 32 - 2 ^ 31.

Definition ConvertTrtTypeToDataType (trt_type : nvinfer1_DataType) : DataType :=
  match trt_type with
  | kFLOAT => TYPE_FP32
  | kHALF => TYPE_FP16
  | kINT8 => TYPE_INT8
  | kINT32 => TYPE_INT32
  end.

Definition ConvertTrtFmtToFmt (trt_fmt : nvinfer1_TensorFormat) : MemoryFormat :=
  match trt_fmt with
  | kLINEAR => LINEAR
  | kCHW2 => CHW2
  | kCHW4 => CHW4
  | kHWC8 => HCW8
  | kCHW16 => CHW16
  | kCHW32 => CHW32
  end.

Definition MemoryFormat_Name (fmt : MemoryFormat) : string :=
  match fmt with
  | LINEAR => "LINEAR"
  | CHW2 => "CHW2"
  | CHW4 => "CHW4"
  | HCW8 => "HCW8"
  | CHW16 => "CHW16"
  | CHW32 => "CHW32"
  | INVALID => "INVALID"
  end.

Definition ConvertDataTypeToTrtType (dtype : DataType)
    : bool * nvinfer1_DataType :=
  match dtype with
  | TYPE_FP32 => (true, kFLOAT)
  | TYPE_FP16 => (true, kHALF)
  | TYPE_INT8 => (true, kINT8)
  | TYPE_INT32 => (true, kINT32)
  | _ => (false, kFLOAT)
  end.

Definition CompareDims (model_dims : Dims) (dims : DimsList) : bool :=
  if negb (nbDims model_dims =? Z.of_nat (List.length dims)) then false
  else
    match for_loop (Z.to_nat (nbDims model_dims)) 0
            (fun i =>
               if negb (d_at model_dims i =? nth i dims 0) then Some false
               else None) with
    | Some r => r
    | None => true
    end.

(** [DimsToDimVec]: the vector is cleared, then gets the first
    [nbDims] entries of [d]; the argument [dims] is the vector's old
    content. *)
Fixpoint DimsToDimVec_loop (count i : nat) (model_dims : Dims)
    (dims : list Z) : list Z :=
  match count with
  | O => dims
  | S count' =>
      DimsToDimVec_loop count' (S i) model_dims
        (dims ++ [d_at model_dims i])%list
  end.

Definition DimsToDimVec (model_dims : Dims) (dims : list Z) : list Z :=
  DimsToDimVec_loop (Z.to_nat (nbDims model_dims)) 0 model_dims [].

Section WithConstants.

(** [nvinfer1::Dims::MAX_DIMS], [WILDCARD_DIM] of the model
    configuration and [DimsListToString] of its utilities, on
    [DimsList]. *)
Variable MAX_DIMS : Z.
Variable WILDCARD_DIM : Z.
Variable DimsListToString : DimsList -> string.

(** The overload of [DimsListToString] on [std::vector<int64_t>]. *)
Variable DimsListToString_vec : list Z -> string.

Definition DimsDebugString (dims : Dims) : string :=
  DimsListToString_vec (DimsToDimVec dims []).

(** The store [dims->d[i] = v]. *)
Fixpoint store (l : list Z) (i : nat) (v : Z) : list Z :=
  match l, i with
  | [], _ => []
  | _ :: l', O => v :: l'
  | x :: l', S i' => x :: store l' i' v
  end.

Fixpoint DimVecToDims_loop (count i : nat) (dim_vec : list Z) (arr : list Z)
    : list Z :=
  match count with
  | O => arr
  | S count' =>
      DimVecToDims_loop count' (S i) dim_vec
        (store arr i (to_int (nth i dim_vec 0)))
  end.

(** [dims] is the [Dims] the caller passes; the result pairs the
    returned flag with what [*dims] holds afterwards. *)
Definition DimVecToDims (dim_vec : list Z) (dims : Dims) : bool * Dims :=
  if Z.of_nat (List.length dim_vec) >? MAX_DIMS then (false, dims)
  else
    let n := Z.of_nat (List.length dim_vec) in
    (true, mkDims n (DimVecToDims_loop (Z.to_nat n) 0 dim_vec (d dims))).

Definition ContainsWildcard (dims : Dims) : bool :=
  match for_loop (Z.to_nat (nbDims dims)) 0
          (fun i => if d_at dims i =? WILDCARD_DIM then Some true else None) with
  | Some r => r
  | None => false
  end.

Definition CompareDimsSupported (model_name binding_name : string)
    (model_dims : Dims) (dims : DimsList)
    (supports_batching is_dynamic : bool) : Status :=
  if supports_batching && is_dynamic
     && ((nbDims model_dims =? 0) || negb (d_at model_dims 0 =? -1))
  then
    mkStatus INVALID_ARG
      ("unable to load model '" ++ model_name ++
       "', model configuration supports batching but first dimension of "
       ++ "binding '" ++ binding_name ++
       "' expected by framework is not a variable-size batch dimension: " ++
       DimsDebugString model_dims ++
       " whereas model configuration shape is: " ++ DimsListToString dims)
  else
    let nonbatch_start_idx :=
      if supports_batching && is_dynamic then 1%nat else 0%nat in
    let mismatch :=
      mkStatus INVALID_ARG
        ("unable to load model '" ++ model_name ++ "', binding '" ++
         binding_name ++ "' shape expected by framework " ++
         DimsDebugString model_dims ++
         " doesn't match model configuration shape " ++
         DimsListToString dims) in
    if negb (nbDims model_dims
             =? Z.of_nat (List.length dims + nonbatch_start_idx))
    then mismatch
    else
      match for_loop (List.length dims) 0
              (fun i =>
                 let model_dim := d_at model_dims (i + nonbatch_start_idx) in
                 if model_dim =? -1 then None
                 else if negb (model_dim =? nth i dims 0) then Some mismatch
                 else None) with
      | Some st => st
      | None => Status_Success
      end.

(** The loop of [MaximumDims] over [max_dims], the vector being
    filled: [Some st] when an iteration returned [st]. *)
Fixpoint MaximumDims_loop (count i : nat) (max_profile_dims : Dims)
    (dims : DimsList) (nonbatch_start_idx : nat) (failure : Status)
    (max_dims : list Z) : option Status * list Z :=
  match count with
  | O => (None, max_dims)
  | S count' =>
      let profile_dim := d_at max_profile_dims (i + nonbatch_start_idx) in
      if nth i dims 0 =? WILDCARD_DIM then
        MaximumDims_loop count' (S i) max_profile_dims dims nonbatch_start_idx
          failure (max_dims ++ [profile_dim])%list
      else if nth i dims 0 <=? profile_dim then
        MaximumDims_loop count' (S i) max_profile_dims dims nonbatch_start_idx
          failure (max_dims ++ [nth i dims 0])%list
      else (Some failure, max_dims)
  end.

(** The result pairs the status with what [*max_dims] holds
    afterwards. *)
Definition MaximumDims (max_profile_dims : Dims) (dims : DimsList)
    (max_dims : list Z) (support_batching : bool) : Status * list Z :=
  let nonbatch_start_idx := if support_batching then 1%nat else 0%nat in
  let failure :=
    mkStatus INVALID_ARG
      ("can not maximize dimension " ++ DimsListToString dims ++ " to " ++
       DimsDebugString max_profile_dims ++ " due to  incompatibility.") in
  if negb (nbDims max_profile_dims
           =? Z.of_nat (List.length dims + nonbatch_start_idx))
  then (failure, max_dims)
  else
    let max_dims1 :=
      if support_batching then (max_dims ++ [d_at max_profile_dims 0])%list
      else max_dims in
    match MaximumDims_loop (List.length dims) 0 max_profile_dims dims
            nonbatch_start_idx failure max_dims1 with
    | (Some st, max_dims2) => (st, max_dims2)
    | (None, max_dims2) => (Status_Success, max_dims2)
    end.

Definition out_of_range (i : nat) (value min_dim max_dim : Z) : Status :=
  mkStatus INTERNAL
    ("The shape of dimension " ++ to_string (Z.of_nat i) ++
     " is expected to be in range from " ++ to_string min_dim ++ " to " ++
     to_string max_dim ++ ", Got: " ++ to_string value).

(** The overload of [ValidateDimension] on [nvinfer1::Dims]. *)
Definition ValidateDimension (this_dims min_dims max_dims : Dims)
    (skip_first_dimension : bool) : Status :=
  let nonbatch_start_idx := if skip_first_dimension then 1%nat else 0%nat in
  if negb (nbDims this_dims + Z.of_nat nonbatch_start_idx =? nbDims max_dims)
  then
    mkStatus INTERNAL
      ("The number of dimensions expected by engine: " ++
       to_string (nbDims max_dims - Z.of_nat nonbatch_start_idx) ++
       ", Got: " ++ to_string (nbDims this_dims))
  else
    match for_loop (Z.to_nat (nbDims this_dims)) 0
            (fun i =>
               if (d_at this_dims i <? d_at min_dims (i + nonbatch_start_idx))
                  || (d_at this_dims i >? d_at max_dims (i + nonbatch_start_idx))
               then
                 Some (out_of_range i (d_at this_dims i)
                         (d_at min_dims (i + nonbatch_start_idx))
                         (d_at max_dims (i + nonbatch_start_idx)))
               else None) with
    | Some st => st
    | None => Status_Success
    end.

(** The overload of [ValidateDimension] on [DimsList]. *)
Definition ValidateDimension_list (this_dims : DimsList)
    (min_dims max_dims : Dims) (skip_first_dimension : bool) : Status :=
  let nonbatch_start_idx := if skip_first_dimension then 1%nat else 0%nat in
  if negb (Z.of_nat (List.length this_dims + nonbatch_start_idx)
           =? nbDims max_dims)
  then
    mkStatus INTERNAL
      ("The number of dimensions expected by engine: " ++
       to_string (nbDims max_dims - Z.of_nat nonbatch_start_idx) ++
       ", Got: " ++ to_string (Z.of_nat (List.length this_dims)))
  else
    match for_loop (List.length this_dims) 0
            (fun i =>
               if nth i this_dims 0 =? -1 then None
               else if (nth i this_dims 0
                        <? d_at min_dims (i + nonbatch_start_idx))
                       || (nth i this_dims 0
                           >? d_at max_dims (i + nonbatch_start_idx))
               then
                 Some (out_of_range i (nth i this_dims 0)
                         (d_at min_dims (i + nonbatch_start_idx))
                         (d_at max_dims (i + nonbatch_start_idx)))
               else None) with
    | Some st => st
    | None => Status_Success
    end.

Definition ValidateControlDimsDynamic (dims : Dims) (support_batching : bool)
    : Status :=
  let expected_first_shape := if support_batching then -1 else 1 in
  if negb (d_at dims 0 =? expected_first_shape) then
    mkStatus INTERNAL
      ("The shape of first dimension of a control input should be " ++
       to_string expected_first_shape ++ ". Got " ++ to_string (d_at dims 0))
  else
    match for_loop (Z.to_nat (nbDims dims) - 1) 1
            (fun i =>
               if negb (d_at dims i =? 1) then
                 Some (mkStatus INTERNAL
                         ("All dimensions (conditionally first) of a control "
                          ++ "input should have shape 1. Got " ++
                          to_string (d_at dims i) ++ " at " ++
                          to_string (Z.of_nat i)))
               else None) with
    | Some st => st
    | None => Status_Success
    end.

End WithConstants.

End PlanUtils.

(** ** Vocabulary of the utilities' properties *)

(** The elements at positions 0, 2, 4, ... *)
Fixpoint every_other {A} (l : list A) : list A :=
  match l with
  | [] => []
  | x :: l' =>
      x :: match l' with
           | [] => []
           | _ :: l'' => every_other l''
           end
  end.

(** The strings of [l] with a comma before each but, when [first]
    holds, the first. *)
Fixpoint joined (first : bool) (l : list string) : string :=
  match l with
  | [] => EmptyString
  | x :: l' => (if first then EmptyString else ",") ++ x ++ joined false l'
  end.

(** A framework dimension that admits the configured one: variable
    ([-1]) or equal. *)
Definition compatible (model_dim config_dim : Z) : Prop :=
  model_dim = -1 \/ model_dim = config_dim.

(** [value] lies between the profile's minimum and maximum at
    position [i], after [off] leading dimensions. *)
Definition in_range (min_dims max_dims : PlanUtils.Dims) (off i : nat)
    (value : Z) : Prop :=
  PlanUtils.d_at min_dims (i + off) <= value
  <= PlanUtils.d_at max_dims (i + off).

(** Sample [nvinfer1::Dims] with [MAX_DIMS = 8]. *)
Definition dims_of (l : list Z) : PlanUtils.Dims :=
  PlanUtils.mkDims (Z.of_nat (List.length l))
    (l ++ repeat 0 (8 - List.length l))%list.

(** A stand-in for [DimsListToString] in the instances. *)
Definition sample_DimsListToString (dims : list Z) : string :=
  "[" ++ String.concat "," (map to_string dims) ++ "]".

(** * Facts about the ordered map *)

Module StdMapFacts.

Import StdMap.

Section Facts.
Context {V : Type}.
Implicit Types (m : t V) (k : string) (v : V).

Lemma key_lt_trans a b c : key_lt a b -> key_lt b c -> key_lt a c.
Proof.
  unfold key_lt. intros Hab Hbc.
  apply String_as_OT.cmp_lt in Hab. apply String_as_OT.cmp_lt in Hbc.
  apply String_as_OT.cmp_lt. eapply String_as_OT.lt_trans; eauto.
Qed.

Lemma key_lt_irrefl a : ~ key_lt a a.
Proof.
  unfold key_lt. intros H. apply String_as_OT.cmp_lt in H.
  apply String_as_OT.lt_not_eq in H. apply H. reflexivity.
Qed.

Lemma compare_Gt_lt a b : String.compare a b = Gt -> key_lt b a.
Proof.
  unfold key_lt. intros H. rewrite String.compare_antisym, H. reflexivity.
Qed.

Lemma find_In k v m : find k m = Some v -> In (k, v) m.
Proof.
  induction m as [|[k' v'] m IH]; simpl; [discriminate|].
  destruct (String.eqb k' k) eqn:E.
  - apply String.eqb_eq in E. intros [= ->]. left. now subst.
  - intros H. right. auto.
Qed.

Lemma find_None_keys k m : find k m = None <-> ~ In k (keys m).
Proof.
  induction m as [|[k' v'] m IH]; simpl.
  - tauto.
  - destruct (String.eqb k' k) eqn:E.
    + apply String.eqb_eq in E. split; [discriminate | intros H; elim H; auto].
    + apply String.eqb_neq in E. rewrite IH. tauto.
Qed.

Lemma ok_tail p m : ok (p :: m) -> ok m.
Proof. unfold ok; simpl. intros H. now inversion H. Qed.

Lemma ok_head_notin k v m : ok ((k, v) :: m) -> ~ In k (keys m).
Proof.
  unfold ok; simpl. intros H Hin. inversion H as [|? ? _ Hall]; subst.
  rewrite Forall_forall in Hall. apply (key_lt_irrefl k). auto.
Qed.

Lemma ok_NoDup m : ok m -> NoDup (keys m).
Proof.
  induction m as [|[k v] m IH]; simpl; intros H.
  - constructor.
  - constructor.
    + now apply ok_head_notin in H.
    + apply IH. eapply ok_tail; eauto.
Qed.

Lemma In_find k v m : ok m -> In (k, v) m -> find k m = Some v.
Proof.
  induction m as [|[k' v'] m IH]; simpl; [tauto|].
  intros Hok [Heq | Hin].
  - injection Heq as -> ->. now rewrite String.eqb_refl.
  - destruct (String.eqb k' k) eqn:E.
    + apply String.eqb_eq in E; subst k'.
      exfalso. apply (ok_head_notin _ _ _ Hok).
      change k with (fst (k, v)). now apply in_map.
    + apply IH; [eapply ok_tail; eauto | assumption].
Qed.

(** *** insert *)

Lemma In_insert p k v m : In p (insert k v m) -> p = (k, v) \/ In p m.
Proof.
  induction m as [|[k' v'] m IH]; simpl.
  - intros [H | []]; auto.
  - destruct (String.compare k k'); simpl; intros H; auto.
    + destruct H; auto.
    + destruct H as [H | H]; auto. destruct (IH H); auto.
Qed.


Lemma find_insert_new k v m :
  find k m = None -> find k (insert k v m) = Some v.
Proof.
  induction m as [|[k' v'] m IH]; simpl.
  - now rewrite String.eqb_refl.
  - destruct (String.eqb k' k) eqn:E; [discriminate|]. intros Hn.
    destruct (String.compare k k') eqn:C; simpl.
    + apply String.compare_eq_iff in C. subst.
      now rewrite String.eqb_refl in E.
    + now rewrite String.eqb_refl.
    + rewrite E. auto.
Qed.

Lemma find_insert_other k k' v m :
  k <> k' -> find k' (insert k v m) = find k' m.
Proof.
  intros Hne. induction m as [|[k0 v0] m IH]; simpl.
  - apply String.eqb_neq in Hne. now rewrite Hne.
  - destruct (String.compare k k0) eqn:C; simpl; auto.
    + apply String.eqb_neq in Hne. now rewrite Hne.
    + now rewrite IH.
Qed.

Lemma keys_insert_In x k v m : In x (keys (insert k v m)) -> x = k \/ In x (keys m).
Proof.
  unfold keys. rewrite in_map_iff. intros [[k0 v0] [<- Hin]].
  apply In_insert in Hin. destruct Hin as [[= -> ->] | Hin]; simpl; auto.
  right. apply in_map_iff. exists (k0, v0); auto.
Qed.

Lemma ok_insert k v m : ok m -> ok (insert k v m).
Proof.
  induction m as [|[k' v'] m IH]; simpl; intros Hok.
  - repeat constructor.
  - destruct (String.compare k k') eqn:C; auto.
    + unfold ok in *; simpl in *. constructor; auto.
      inversion Hok as [|? ? _ Hall]; subst. constructor; auto.
      eapply Forall_impl; [|exact Hall]. intros a Ha.
      eapply key_lt_trans; eauto.
    + assert (Hok' := ok_tail _ _ Hok).
      specialize (IH Hok'). unfold ok in *; simpl in *.
      constructor; auto.
      inversion Hok as [|? ? _ Hall]; subst.
      rewrite Forall_forall in *. intros x Hx.
      apply keys_insert_In in Hx. destruct Hx as [-> | Hx]; auto.
      now apply compare_Gt_lt.
Qed.


(** *** erase *)

Lemma In_erase p k m : In p (erase k m) -> In p m.
Proof.
  induction m as [|[k' v'] m IH]; simpl; auto.
  destruct (String.eqb k' k); simpl; intros H; auto.
  destruct H; auto.
Qed.



Lemma find_erase_other k k' m : k <> k' -> find k' (erase k m) = find k' m.
Proof.
  intros Hne. induction m as [|[k0 v0] m IH]; simpl; auto.
  destruct (String.eqb k0 k) eqn:E; simpl.
  - apply String.eqb_eq in E. subst k0.
    apply String.eqb_neq in Hne. now rewrite Hne.
  - now rewrite IH.
Qed.

Lemma ok_erase k m : ok m -> ok (erase k m).
Proof.
  induction m as [|[k' v'] m IH]; simpl; intros Hok; auto.
  assert (Hok' := ok_tail _ _ Hok).
  destruct (String.eqb k' k); auto.
  specialize (IH Hok'). unfold ok in *; simpl in *.
  constructor; auto.
  inversion Hok as [|? ? _ Hall]; subst.
  rewrite Forall_forall in *. intros x Hx. apply Hall.
  unfold keys in *. rewrite in_map_iff in *.
  destruct Hx as [p [<- Hp]]. exists p. split; auto.
  eapply In_erase; eauto.
Qed.

Lemma find_erase_same k m : ok m -> find k (erase k m) = None.
Proof.
  induction m as [|[k' v'] m IH]; simpl; intros Hok; auto.
  destruct (String.eqb k' k) eqn:E; simpl.
  - apply String.eqb_eq in E. subst k'.
    apply find_None_keys. eapply ok_head_notin; eauto.
  - rewrite E. apply IH. eapply ok_tail; eauto.
Qed.


(** *** iterators *)


Lemma increment_absent k m : find k m = None -> increment k m = None.
Proof.
  induction m as [|[k' v'] m IH]; simpl; auto.
  destruct (String.eqb k' k); [discriminate | auto].
Qed.

End Facts.

End StdMapFacts.

(** * Properties *)

Ltac run :=
  unfold lock_guard, RETURN_IF_ERROR, erase_and_succeed, bind, ret, emit,
    get_map, get_trace, map_insert, map_erase in *; simpl in *.

Section Properties.

Variable os : OS.
Variable TRTIS_ENABLE_GPU : bool.

Local Abbreviation Helper := (UnregisterSharedMemoryHelper os TRTIS_ENABLE_GPU).
Local Abbreviation Unregister := (UnregisterSharedMemory os TRTIS_ENABLE_GPU).

(** ** Unregistering an absent name *)

Lemma Helper_absent name w :
  StdMap.find name (shared_memory_map_ w) = None ->
  Helper name w = (Status_Success, w).
Proof.
  intros H. unfold UnregisterSharedMemoryHelper. run. now rewrite H.
Qed.

(** C8. For every state and every name that is not in the table,
    [UnregisterSharedMemory] returns success, leaves the table as it
    was and makes no call to the operating system or the CUDA runtime
    (the mutex is taken and released, nothing else happens); doing it
    again gives the same. *)
Theorem C8_unregister_absent_is_noop name w :
  StdMap.find name (shared_memory_map_ w) = None ->
  let (st, w') := Unregister name w in
  st = Status_Success /\
  shared_memory_map_ w' = shared_memory_map_ w /\
  trace w' = EvUnlock :: EvLock :: trace w /\
  os_calls (trace w') = os_calls (trace w) /\
  fst (Unregister name w') = Status_Success /\
  shared_memory_map_ (snd (Unregister name w')) = shared_memory_map_ w.
Proof.
  intros H. unfold UnregisterSharedMemory, UnregisterSharedMemoryHelper.
  run. rewrite H. simpl. rewrite H. simpl. repeat split; reflexivity.
Qed.

(** ** Registering a name twice *)

(** C4. For every state that holds a record named [name], a further
    registration under that name, host or device, fails with
    [ALREADY_EXISTS], makes no call to the operating system or the CUDA
    runtime, and leaves the table as it was (same contents, same
    size). *)
Theorem C4_register_existing_name name r w :
  StdMap.find name (shared_memory_map_ w) = Some r ->
  (forall shm_key offset byte_size,
     let (st, w') := RegisterSharedMemory os name shm_key offset byte_size w in
     status_code st = ALREADY_EXISTS /\
     shared_memory_map_ w' = shared_memory_map_ w /\
     List.length (shared_memory_map_ w') = List.length (shared_memory_map_ w) /\
     trace w' = EvUnlock :: EvLock :: trace w /\
     os_calls (trace w') = os_calls (trace w)) /\
  (forall cuda_shm_handle byte_size device_id,
     let (st, w') :=
       RegisterCudaSharedMemory os name cuda_shm_handle byte_size device_id w in
     status_code st = ALREADY_EXISTS /\
     shared_memory_map_ w' = shared_memory_map_ w /\
     List.length (shared_memory_map_ w') = List.length (shared_memory_map_ w) /\
     trace w' = EvUnlock :: EvLock :: trace w /\
     os_calls (trace w') = os_calls (trace w)).
Proof.
  intros H. split; intros.
  - unfold RegisterSharedMemory. run. rewrite H. simpl. repeat split.
  - unfold RegisterCudaSharedMemory. run. rewrite H. simpl. repeat split.
Qed.

(** ** Address resolution *)

Lemma ptr_add_assoc p a b : ptr_add (ptr_add p a) b = (p + a + b) mod 2 ^ 64.
Proof. unfold ptr_add. now rewrite Zplus_mod_idemp_l. Qed.

(** C6. For every state and every request [(name, offset, byte_size)]:
    the state is never changed; an unknown name fails with [INTERNAL]
    and stores no pointer; for a CPU record the pointer is
    [mapped_addr_ + offset_ + offset], for a GPU record
    [mapped_addr_ + offset] (64-bit pointer arithmetic, the plain sum
    when that is an address); and neither case looks at [byte_size]:
    the call succeeds whatever [offset] and [byte_size] are, with the
    same result for every [byte_size]. *)
Theorem C6_address_resolution name offset byte_size w :
  let '(st, p, w') := SharedMemoryAddress name offset byte_size w in
  w' = w /\
  (StdMap.find name (shared_memory_map_ w) = None ->
     status_code st = INTERNAL /\ p = None) /\
  (forall it, StdMap.find name (shared_memory_map_ w) = Some it ->
     st = Status_Success /\
     (kind_ it = MEMORY_CPU ->
        p = Some ((mapped_addr_ it + offset_ it + offset) mod 2 ^ 64) /\
        (0 <= mapped_addr_ it + offset_ it + offset < 2 ^ 64 ->
           p = Some (mapped_addr_ it + offset_ it + offset))) /\
     (kind_ it = MEMORY_GPU ->
        p = Some ((mapped_addr_ it + offset) mod 2 ^ 64) /\
        (0 <= mapped_addr_ it + offset < 2 ^ 64 ->
           p = Some (mapped_addr_ it + offset)))) /\
  (forall byte_size',
     SharedMemoryAddress name offset byte_size' w
     = SharedMemoryAddress name offset byte_size w).
Proof.
  unfold SharedMemoryAddress. run.
  destruct (StdMap.find name (shared_memory_map_ w)) as [it|] eqn:F.
  - destruct (kind_ it) eqn:K; simpl; (split; [reflexivity|]);
      (split; [discriminate|]); (split; [|reflexivity]);
      intros it' [= <-]; rewrite K; (split; [reflexivity|]);
      split; try discriminate; intros _; rewrite ?ptr_add_assoc;
      (split; [reflexivity|]); intros Hr.
    + now rewrite Z.mod_small.
    + unfold ptr_add. now rewrite Z.mod_small.
  - simpl. split; [reflexivity|]. split; [auto|]. split; [discriminate|reflexivity].
Qed.

(** ** The mutex *)

Ltac under_lock_by_cases :=
  unfold under_lock;
  first [ now (exists []) | now (eexists [_]) | now (eexists [_; _])
        | now (eexists [_; _; _]) ].

Lemma RegisterSharedMemory_under_lock name shm_key offset byte_size w :
  under_lock (trace w)
    (trace (snd (RegisterSharedMemory os name shm_key offset byte_size w))).
Proof.
  unfold RegisterSharedMemory, OpenSharedMemoryRegion, MapSharedMemory. run.
  destruct (StdMap.find name (shared_memory_map_ w)); simpl;
    [under_lock_by_cases|].
  destruct (scan_shm_fd shm_key (shared_memory_map_ w) =? -1); simpl.
  - destruct (os_shm_open os _ shm_key =? -1); simpl; [under_lock_by_cases|].
    destruct (os_mmap os _ _ _ _ =? MAP_FAILED); simpl; under_lock_by_cases.
  - destruct (os_mmap os _ _ _ _ =? MAP_FAILED); simpl; under_lock_by_cases.
Qed.

Lemma RegisterCudaSharedMemory_under_lock name handle byte_size device_id w :
  under_lock (trace w)
    (trace (snd (RegisterCudaSharedMemory os name handle byte_size device_id w))).
Proof.
  unfold RegisterCudaSharedMemory, OpenCudaIPCRegion. run.
  destruct (StdMap.find name (shared_memory_map_ w)); simpl;
    [under_lock_by_cases|].
  destruct (os_cudaIpcOpenMemHandle os _ handle) as [err ptr]; simpl.
  destruct (err =? cudaSuccess); simpl; under_lock_by_cases.
Qed.

Lemma UnregisterSharedMemory_under_lock name w :
  under_lock (trace w) (trace (snd (Unregister name w))).
Proof.
  unfold UnregisterSharedMemory, UnregisterSharedMemoryHelper, close_step,
    UnmapSharedMemory, CloseSharedMemoryRegion, cudaIpcCloseMemHandle. run.
  destruct (StdMap.find name (shared_memory_map_ w)) as [it|]; simpl;
    [|under_lock_by_cases].
  destruct (kind_ it); simpl.
  - destruct (os_munmap os _ _ _ =? -1); simpl; [under_lock_by_cases|].
    destruct (scan_last_one _ _); simpl; [|under_lock_by_cases].
    destruct (os_close os _ _ =? -1); simpl; under_lock_by_cases.
  - destruct TRTIS_ENABLE_GPU; simpl; [|under_lock_by_cases].
    destruct (os_cudaIpcCloseMemHandle os _ _ =? cudaSuccess); simpl;
      under_lock_by_cases.
Qed.

Lemma GetSharedMemoryStatus_under_lock shm_status w :
  under_lock (trace w) (trace (snd (GetSharedMemoryStatus shm_status w))).
Proof. unfold GetSharedMemoryStatus. run. under_lock_by_cases. Qed.

Lemma Helper_trace name w :
  exists delta, trace (snd (Helper name w)) = (delta ++ trace w)%list.
Proof.
  unfold UnregisterSharedMemoryHelper, close_step, UnmapSharedMemory,
    CloseSharedMemoryRegion, cudaIpcCloseMemHandle. run.
  destruct (StdMap.find name (shared_memory_map_ w)) as [it|]; simpl;
    [|now exists []].
  destruct (kind_ it); simpl.
  - destruct (os_munmap os _ _ _ =? -1); simpl; [now eexists [_]|].
    destruct (scan_last_one _ _); simpl; [|now eexists [_]].
    destruct (os_close os _ _ =? -1); simpl; now eexists [_; _].
  - destruct TRTIS_ENABLE_GPU; simpl; [|now exists []].
    destruct (os_cudaIpcCloseMemHandle os _ _ =? cudaSuccess); simpl;
      now eexists [_].
Qed.

Lemma unregister_all_loop_trace fuel : forall it fails w fails' w',
  unregister_all_loop os TRTIS_ENABLE_GPU fuel it fails w = Returns fails' w' ->
  exists delta, trace w' = (delta ++ trace w)%list.
Proof.
  induction fuel as [|fuel IH]; intros it fails w fails' w'; simpl;
    destruct it as [first|]; try discriminate;
    try (intros [= _ <-]; now exists []).
  destruct (Helper_trace first w) as [d1 H1].
  destruct (Helper first w) as [st w1]. simpl in H1.
  destruct (StdMap.increment first (shared_memory_map_ w1)); [|discriminate].
  intros L. apply IH in L. destruct L as [d2 H2].
  exists (d2 ++ d1)%list. now rewrite H2, H1, app_assoc.
Qed.

Lemma UnregisterAllSharedMemory_under_lock w st w' :
  UnregisterAllSharedMemory os TRTIS_ENABLE_GPU w = Returns st w' ->
  under_lock (trace w) (trace w').
Proof.
  unfold UnregisterAllSharedMemory.
  destruct (unregister_all_loop _ _ _ _ _ _) as [fails w1| |] eqn:L;
    try discriminate.
  apply unregister_all_loop_trace in L. destruct L as [delta Hd].
  destruct fails; intros [= _ <-]; exists delta; simpl; now rewrite Hd.
Qed.

(** C9. [SharedMemoryAddress] reads [shared_memory_map_] without
    [register_mu_]: the call returns the world it was given, so it
    records no [EvLock] and no [EvUnlock], while registration,
    unregistration and the status report each run between an [EvLock]
    and an [EvUnlock]. *)
Theorem C9_address_lookup_takes_no_lock name offset byte_size w :
  snd (SharedMemoryAddress name offset byte_size w) = w /\
  ~ under_lock (trace w)
      (trace (snd (SharedMemoryAddress name offset byte_size w))) /\
  (forall n shm_key off size,
     under_lock (trace w)
       (trace (snd (RegisterSharedMemory os n shm_key off size w)))) /\
  (forall n handle size device_id,
     under_lock (trace w)
       (trace (snd (RegisterCudaSharedMemory os n handle size device_id w)))) /\
  (forall n, under_lock (trace w) (trace (snd (Unregister n w)))) /\
  (forall shm_status,
     under_lock (trace w) (trace (snd (GetSharedMemoryStatus shm_status w)))).
Proof.
  assert (E : snd (SharedMemoryAddress name offset byte_size w) = w).
  { unfold SharedMemoryAddress. run.
    destruct (StdMap.find name (shared_memory_map_ w)) as [it|]; simpl; auto.
    destruct (kind_ it); reflexivity. }
  split; [exact E|]. rewrite E. split.
  - intros [delta Hd].
    apply (f_equal (@List.length Event)) in Hd. simpl in Hd.
    rewrite length_app in Hd. simpl in Hd. lia.
  - repeat split; intros.
    + apply RegisterSharedMemory_under_lock.
    + apply RegisterCudaSharedMemory_under_lock.
    + apply UnregisterSharedMemory_under_lock.
    + apply GetSharedMemoryStatus_under_lock.
Qed.

(** ** Host registration *)

Lemma scan_shm_fd_no_key shm_key (m : Table) :
  (forall k r, In (k, r) m -> shm_key_ r <> shm_key) ->
  scan_shm_fd shm_key m = -1.
Proof.
  induction m as [|[k r] m IH]; simpl; intros H; auto.
  destruct (String.eqb (shm_key_ r) shm_key) eqn:E.
  - apply String.eqb_eq in E. exfalso. apply (H k r); auto.
  - apply IH. intros k' r' Hin. apply (H k' r'). auto.
Qed.

(** A host registration leaves the records of all other names as
    they were. *)
Lemma RegisterSharedMemory_other_names name name' shm_key offset byte_size w :
  name <> name' ->
  StdMap.find name'
    (shared_memory_map_
       (snd (RegisterSharedMemory os name shm_key offset byte_size w)))
  = StdMap.find name' (shared_memory_map_ w).
Proof.
  intros Hne.
  unfold RegisterSharedMemory, OpenSharedMemoryRegion, MapSharedMemory. run.
  destruct (StdMap.find name (shared_memory_map_ w)); simpl; auto.
  destruct (scan_shm_fd shm_key (shared_memory_map_ w) =? -1); simpl.
  - destruct (os_shm_open os _ shm_key =? -1); simpl; auto.
    destruct (os_mmap os _ _ _ _ =? MAP_FAILED); simpl; auto.
    now apply StdMapFacts.find_insert_other.
  - destruct (os_mmap os _ _ _ _ =? MAP_FAILED); simpl; auto.
    now apply StdMapFacts.find_insert_other.
Qed.

(** C3. For every state and every host registration: when its mapping
    step fails ([mmap] answered [MAP_FAILED]) the call returns
    [INVALID_ARG] and the table is as before, without the name; and in
    every case the call either succeeds having inserted the new, fully
    filled-in CPU record under a name that was free, or fails with the
    table unchanged. *)
Theorem C3_failed_mapping_registers_nothing name shm_key offset byte_size w :
  let (st, w') := RegisterSharedMemory os name shm_key offset byte_size w in
  ((exists fd h,
      trace w' = EvUnlock :: EvMmap byte_size fd offset MAP_FAILED :: h) ->
   status_code st = INVALID_ARG /\
   shared_memory_map_ w' = shared_memory_map_ w /\
   StdMap.find name (shared_memory_map_ w') = None) /\
  ((IsOk st = true /\
    StdMap.find name (shared_memory_map_ w) = None /\
    exists fd addr,
      fd <> -1 /\ addr <> MAP_FAILED /\
      shared_memory_map_ w'
      = StdMap.insert name
          (mkInfo name shm_key offset byte_size fd addr MEMORY_CPU 0)
          (shared_memory_map_ w) /\
      StdMap.find name (shared_memory_map_ w')
      = Some (mkInfo name shm_key offset byte_size fd addr MEMORY_CPU 0))
   \/ (IsOk st = false /\ shared_memory_map_ w' = shared_memory_map_ w)).
Proof.
  unfold RegisterSharedMemory, OpenSharedMemoryRegion, MapSharedMemory. run.
  destruct (StdMap.find name (shared_memory_map_ w)) eqn:F; simpl.
  { split; [intros (fd & h & [=]) | right; auto]. }
  destruct (scan_shm_fd shm_key (shared_memory_map_ w) =? -1) eqn:S; simpl.
  - destruct (os_shm_open os _ shm_key =? -1) eqn:O; simpl.
    { split; [intros (fd & h & [=]) | right; auto]. }
    destruct (os_mmap os _ _ _ _ =? MAP_FAILED) eqn:Mm; simpl.
    { split; [auto | right; auto]. }
    apply Z.eqb_neq in O, Mm. split.
    + intros (fd & h & [= _ Hm _]). congruence.
    + left. repeat split; auto. do 2 eexists. repeat split; eauto.
      now apply StdMapFacts.find_insert_new.
  - destruct (os_mmap os _ _ _ _ =? MAP_FAILED) eqn:Mm; simpl.
    { split; [auto | right; auto]. }
    apply Z.eqb_neq in S, Mm. split.
    + intros (fd & h & [= _ Hm _]). congruence.
    + left. repeat split; auto. do 2 eexists. repeat split; eauto.
      now apply StdMapFacts.find_insert_new.
Qed.

(** C10. For every host registration of a free name whose key no live
    record carries, whose [shm_open] succeeds and whose [mmap] then
    fails: the call returns [INVALID_ARG] with the table unchanged,
    and between the [shm_open] that returned the descriptor and the
    return there is the failed [mmap] and nothing else, no [close]:
    the descriptor stays open. *)
Theorem C10_failed_mapping_leaves_descriptor_open
    name shm_key offset byte_size w :
  StdMap.find name (shared_memory_map_ w) = None ->
  (forall k r, In (k, r) (shared_memory_map_ w) -> shm_key_ r <> shm_key) ->
  let fd := os_shm_open os (EvLock :: trace w) shm_key in
  fd <> -1 ->
  os_mmap os (EvShmOpen shm_key fd :: EvLock :: trace w) byte_size fd offset
  = MAP_FAILED ->
  let (st, w') := RegisterSharedMemory os name shm_key offset byte_size w in
  status_code st = INVALID_ARG /\
  shared_memory_map_ w' = shared_memory_map_ w /\
  trace w' = EvUnlock :: EvMmap byte_size fd offset MAP_FAILED
               :: EvShmOpen shm_key fd :: EvLock :: trace w /\
  existsb (is_close_of fd) (trace w') = existsb (is_close_of fd) (trace w) /\
  left_open fd (trace w') = true.
Proof.
  intros F Hkey fd Hfd Hmap.
  unfold RegisterSharedMemory, OpenSharedMemoryRegion, MapSharedMemory. run.
  rewrite F, (scan_shm_fd_no_key _ _ Hkey). simpl.
  fold fd. apply Z.eqb_neq in Hfd. rewrite Hfd. simpl.
  rewrite Hmap. simpl. rewrite !Z.eqb_refl. repeat split.
Qed.

(** ** Unregistering a CPU record *)

(** The scan for "no other region with same shm_key" runs over the map
    while the record being removed is still in it, so it always meets a
    record with that key. *)
Lemma scan_last_one_present k it (m : Table) :
  In (k, it) m -> scan_last_one (shm_key_ it) m = false.
Proof.
  induction m as [|[k' r] m IH]; simpl; [tauto|].
  intros [H | H].
  - injection H as -> ->. now rewrite String.eqb_refl.
  - destruct (String.eqb (shm_key_ r) (shm_key_ it)); auto.
Qed.

(** What unregistering a present CPU record comes to: one [munmap];
    when it fails, [INTERNAL] and nothing else; when it succeeds, the
    record is erased, and the descriptor is not closed. *)
Lemma Helper_cpu name it w :
  StdMap.find name (shared_memory_map_ w) = Some it ->
  kind_ it = MEMORY_CPU ->
  let tmp := os_munmap os (trace w) (mapped_addr_ it) (byte_size_ it) in
  let tr := EvMunmap (mapped_addr_ it) (byte_size_ it) tmp :: trace w in
  Helper name w
  = if tmp =? -1 then
      (mkStatus INTERNAL "Unable to munmap shared memory region",
       mkWorld (shared_memory_map_ w) tr)
    else
      (Status_Success,
       mkWorld (StdMap.erase name (shared_memory_map_ w)) tr).
Proof.
  intros F K tmp tr.
  unfold UnregisterSharedMemoryHelper, close_step, UnmapSharedMemory. run.
  rewrite F, K. simpl. fold tmp. destruct (tmp =? -1); simpl; [reflexivity|].
  rewrite (scan_last_one_present name it); [reflexivity|].
  now apply StdMapFacts.find_In.
Qed.


(** ** Unregistering everything *)

(** What a call of the helper on a present name can do to the table:
    erase that name and return Ok, or leave the table alone and return
    an error. *)
Lemma Helper_present name it w :
  StdMap.find name (shared_memory_map_ w) = Some it ->
  let (st, w') := Helper name w in
  (IsOk st = true /\
   shared_memory_map_ w' = StdMap.erase name (shared_memory_map_ w))
  \/ (IsOk st = false /\ shared_memory_map_ w' = shared_memory_map_ w).
Proof.
  intros F. destruct (kind_ it) eqn:K.
  - rewrite (Helper_cpu name it w F K). simpl.
    destruct (os_munmap os _ _ _ =? -1); simpl; auto.
  - unfold UnregisterSharedMemoryHelper, cudaIpcCloseMemHandle. run.
    rewrite F, K. destruct TRTIS_ENABLE_GPU; simpl; auto.
    destruct (os_cudaIpcCloseMemHandle os _ _ =? cudaSuccess); simpl; auto.
Qed.

(** Unregistering one name leaves every other name as it was. *)
Lemma Helper_other_names name name' w :
  name <> name' ->
  StdMap.find name' (shared_memory_map_ (snd (Helper name w)))
  = StdMap.find name' (shared_memory_map_ w).
Proof.
  intros Hne.
  destruct (StdMap.find name (shared_memory_map_ w)) as [it|] eqn:F.
  - pose proof (Helper_present name it w F) as HP.
    destruct (Helper name w) as [st w1]. simpl.
    destruct HP as [[_ ->] | [_ ->]]; [|reflexivity].
    now apply StdMapFacts.find_erase_other.
  - now rewrite Helper_absent.
Qed.

(** As soon as the unregistration of the first name succeeds, the
    range-for of [UnregisterAllSharedMemory] increments the iterator of
    the node just erased. *)
Lemma UnregisterAll_first_success_undefined k it rest w :
  StdMap.ok (shared_memory_map_ w) ->
  shared_memory_map_ w = (k, it) :: rest ->
  IsOk (fst (Helper k (snd (emit EvLock w)))) = true ->
  UnregisterAllSharedMemory os TRTIS_ENABLE_GPU w
  = Undefined (snd (Helper k (snd (emit EvLock w)))).
Proof.
  intros Hok Hm Hst. unfold UnregisterAllSharedMemory.
  set (w0 := snd (emit EvLock w)) in *.
  assert (Hm0 : shared_memory_map_ w0 = (k, it) :: rest) by exact Hm.
  rewrite Hm0. simpl.
  assert (F : StdMap.find k (shared_memory_map_ w0) = Some it).
  { rewrite Hm0. simpl. now rewrite String.eqb_refl. }
  pose proof (Helper_present k it w0 F) as HP.
  destruct (Helper k w0) as [st w1]. simpl in *.
  destruct HP as [[_ Hmap] | [Hne _]]; [|congruence].
  rewrite StdMapFacts.increment_absent; [reflexivity|].
  rewrite Hmap. apply StdMapFacts.find_erase_same. now rewrite Hm0, <- Hm.
Qed.

Lemma increment_at k v (pre rest : Table) :
  ~ In k (StdMap.keys pre) ->
  StdMap.increment k (pre ++ (k, v) :: rest)%list = Some (StdMap.begin rest).
Proof.
  induction pre as [|[k' v'] pre IH]; simpl; intros Hn.
  - now rewrite String.eqb_refl.
  - destruct (String.eqb k' k) eqn:E.
    + apply String.eqb_eq in E. exfalso. auto.
    + apply IH. auto.
Qed.

Lemma ok_middle_notin k v (pre rest : Table) :
  StdMap.ok (pre ++ (k, v) :: rest)%list -> ~ In k (StdMap.keys pre).
Proof.
  intros Hok Hin. apply StdMapFacts.ok_NoDup in Hok.
  unfold StdMap.keys in *. rewrite map_app in Hok. simpl in Hok.
  apply NoDup_remove_2 in Hok. apply Hok. apply in_or_app. auto.
Qed.

(** Whenever the loop of [UnregisterAllSharedMemory] runs to its end,
    every unregistration it made has failed: the table is the one it
    started from and every name from the iterator on is in the list of
    failures, in map order. *)
Lemma unregister_all_loop_returns fuel :
  forall (pre rest : Table) fails w fails' w',
    StdMap.ok (shared_memory_map_ w) ->
    shared_memory_map_ w = (pre ++ rest)%list ->
    unregister_all_loop os TRTIS_ENABLE_GPU fuel (StdMap.begin rest) fails w
    = Returns fails' w' ->
    shared_memory_map_ w' = shared_memory_map_ w /\
    fails' = (fails ++ StdMap.keys rest)%list.
Proof.
  induction fuel as [|fuel IH]; intros pre rest fails w fails' w' Hok Hm;
    destruct rest as [|[k v] rest]; simpl;
    try discriminate;
    try (intros [= <- <-]; split; [reflexivity | now rewrite app_nil_r]).
  assert (F : StdMap.find k (shared_memory_map_ w) = Some v).
  { apply StdMapFacts.In_find; [exact Hok|]. rewrite Hm. apply in_or_app.
    right. now left. }
  pose proof (Helper_present k v w F) as HP.
  destruct (Helper k w) as [st w1]. simpl in *.
  destruct HP as [[_ Hmap] | [Hst Hmap]].
  - rewrite StdMapFacts.increment_absent; [discriminate|].
    rewrite Hmap. now apply StdMapFacts.find_erase_same.
  - rewrite Hmap, Hm, increment_at, Hst
      by (apply (ok_middle_notin k v pre rest); now rewrite <- Hm).
    intros L.
    apply (IH (pre ++ [(k, v)])%list rest) in L.
    + destruct L as [L1 L2]. split; [congruence|].
      now rewrite L2, <- app_assoc.
    + now rewrite Hmap.
    + now rewrite Hmap, Hm, <- app_assoc.
Qed.

(** The loop bound of the model is large enough. *)
Lemma unregister_all_loop_fuel fuel :
  forall (pre rest : Table) fails w,
    StdMap.ok (shared_memory_map_ w) ->
    shared_memory_map_ w = (pre ++ rest)%list ->
    (List.length rest <= fuel)%nat ->
    unregister_all_loop os TRTIS_ENABLE_GPU fuel (StdMap.begin rest) fails w
    <> OutOfFuel.
Proof.
  induction fuel as [|fuel IH]; intros pre rest fails w Hok Hm Hlen;
    destruct rest as [|[k v] rest]; simpl in *; try discriminate; try lia.
  assert (F : StdMap.find k (shared_memory_map_ w) = Some v).
  { apply StdMapFacts.In_find; [exact Hok|]. rewrite Hm. apply in_or_app.
    right. now left. }
  pose proof (Helper_present k v w F) as HP.
  destruct (Helper k w) as [st w1]. simpl in *.
  destruct HP as [[_ Hmap] | [Hst Hmap]].
  - rewrite StdMapFacts.increment_absent; [discriminate|].
    rewrite Hmap. now apply StdMapFacts.find_erase_same.
  - rewrite Hmap, Hm, increment_at
      by (apply (ok_middle_notin k v pre rest); now rewrite <- Hm).
    apply (IH (pre ++ [(k, v)])%list rest).
    + now rewrite Hmap.
    + now rewrite Hmap, Hm, <- app_assoc.
    + lia.
Qed.

(** [UnregisterAllSharedMemory] either returns or reaches undefined
    behaviour; when it returns, the table is the one before the call,
    so it returns success on the empty table only, and otherwise the
    aggregate [INTERNAL] error naming every registered region. *)
Lemma UnregisterAllSharedMemory_returns w :
  StdMap.ok (shared_memory_map_ w) ->
  UnregisterAllSharedMemory os TRTIS_ENABLE_GPU w <> OutOfFuel /\
  forall st w',
    UnregisterAllSharedMemory os TRTIS_ENABLE_GPU w = Returns st w' ->
    shared_memory_map_ w' = shared_memory_map_ w /\
    (shared_memory_map_ w = [] -> st = Status_Success) /\
    (shared_memory_map_ w <> [] ->
     st = mkStatus INTERNAL
            (unregister_error_message (StdMap.keys (shared_memory_map_ w)))).
Proof.
  intros Hok. unfold UnregisterAllSharedMemory.
  set (w0 := snd (emit EvLock w)).
  assert (Hm0 : shared_memory_map_ w0 = shared_memory_map_ w) by reflexivity.
  rewrite Hm0.
  pose proof (unregister_all_loop_fuel (List.length (shared_memory_map_ w))
                [] (shared_memory_map_ w) [] w0 Hok eq_refl (le_n _)) as HF.
  pose proof (unregister_all_loop_returns (List.length (shared_memory_map_ w))
                [] (shared_memory_map_ w) [] w0) as HR.
  destruct (unregister_all_loop _ _ _ _ _ _) as [fails w1| |];
    [|split; [discriminate | discriminate] | congruence].
  destruct (HR fails w1 Hok eq_refl eq_refl) as [H1 H2]. simpl in H2.
  split; [destruct fails; discriminate|].
  intros st w'. subst fails.
  destruct (shared_memory_map_ w) as [|[k v] m]; simpl; intros [= <- <-];
    simpl; (split; [now rewrite H1|]); split; intros E;
    try discriminate; try reflexivity.
  now elim E.
Qed.

(** ** The shared descriptor *)

Lemma scan_shm_fd_found shm_key (m : Table) :
  (scan_shm_fd shm_key m = -1 /\
   forall k r, In (k, r) m -> shm_key_ r <> shm_key)
  \/ exists k r,
       In (k, r) m /\ shm_key_ r = shm_key /\
       scan_shm_fd shm_key m = shm_fd_ r.
Proof.
  induction m as [|[k r] m IH]; simpl.
  - left. split; [reflexivity | tauto].
  - destruct (String.eqb (shm_key_ r) shm_key) eqn:E.
    + apply String.eqb_eq in E. right. exists k, r. auto.
    + apply String.eqb_neq in E. destruct IH as [[H1 H2] | (k' & r' & H1 & H2 & H3)].
      * left. split; auto. intros k' r' [[= <- <-] | Hin]; eauto.
      * right. exists k', r'. auto.
Qed.

Section Invariant.

Hypothesis posix_shm_open :
  TRTIS_ENABLE_GPU = true -> shm_open_rejects_empty_name os.

Local Abbreviation inv := (table_inv TRTIS_ENABLE_GPU).

(** Under the invariant the scan of a registration finds the
    descriptor of the key whenever a live CPU record has it. *)
Lemma scan_shm_fd_cpu m k r :
  inv m -> In (k, r) m -> kind_ r = MEMORY_CPU ->
  scan_shm_fd (shm_key_ r) m = shm_fd_ r.
Proof.
  intros I Hin K.
  destruct (scan_shm_fd_found (shm_key_ r) m)
    as [[_ H] | (k' & r' & Hin' & Hk & ->)].
  - exfalso. now apply (H k r).
  - destruct (kind_ r') eqn:K'.
    + now apply (inv_shared _ _ I k' r' k r).
    + destruct (inv_gpu _ _ I k' r' Hin' K') as (G & Hkey & _).
      exfalso. apply (inv_cpu_key _ _ I G k r Hin K). congruence.
Qed.

(** ... and finds none exactly when no live CPU record has the key. *)
Lemma scan_shm_fd_none m shm_key :
  inv m ->
  (forall k r, In (k, r) m -> kind_ r = MEMORY_CPU -> shm_key_ r <> shm_key) ->
  scan_shm_fd shm_key m = -1.
Proof.
  intros I H.
  destruct (scan_shm_fd_found shm_key m)
    as [[E _] | (k' & r' & Hin' & Hk & ->)]; auto.
  destruct (kind_ r') eqn:K'.
  - exfalso. now apply (H k' r').
  - now destruct (inv_gpu _ _ I k' r' Hin' K') as (_ & _ & ?).
Qed.

Lemma table_inv_empty : inv [].
Proof.
  constructor.
  - constructor.
  - intros k r [].
  - intros k r [].
  - intros G k r [].
  - intros k1 r1 k2 r2 [].
Qed.

Lemma table_inv_erase name m : inv m -> inv (StdMap.erase name m).
Proof.
  intros [I1 I2 I3 I4 I5]. constructor.
  - now apply StdMapFacts.ok_erase.
  - intros k r H. apply StdMapFacts.In_erase in H. eauto.
  - intros k r H. apply StdMapFacts.In_erase in H. eauto.
  - intros G k r H. apply StdMapFacts.In_erase in H. eauto.
  - intros k1 r1 k2 r2 H1 H2.
    apply StdMapFacts.In_erase in H1. apply StdMapFacts.In_erase in H2. eauto.
Qed.

Lemma table_inv_insert_gpu name byte_size addr device_id m :
  TRTIS_ENABLE_GPU = true -> inv m ->
  inv (StdMap.insert name
         (mkInfo name EmptyString 0 byte_size (-1) addr MEMORY_GPU device_id) m).
Proof.
  intros G [I1 I2 I3 I4 I5]. constructor.
  - now apply StdMapFacts.ok_insert.
  - intros k r H K. apply StdMapFacts.In_insert in H.
    destruct H as [[= -> ->] | H]; [discriminate | eauto].
  - intros k r H K. apply StdMapFacts.In_insert in H.
    destruct H as [[= -> ->] | H]; [simpl; auto | eauto].
  - intros _ k r H K. apply StdMapFacts.In_insert in H.
    destruct H as [[= -> ->] | H]; [discriminate | eauto].
  - intros k1 r1 k2 r2 H1 H2 K1 K2.
    apply StdMapFacts.In_insert in H1. apply StdMapFacts.In_insert in H2.
    destruct H1 as [[= -> ->] | H1]; [discriminate|].
    destruct H2 as [[= -> ->] | H2]; [discriminate | eauto].
Qed.

(** Inserting the CPU record of a registration whose descriptor came
    from the scan, or from [shm_open] when the scan found none. *)
Lemma table_inv_insert_cpu name shm_key offset byte_size fd addr m :
  inv m ->
  fd <> -1 ->
  (scan_shm_fd shm_key m = fd
   \/ (scan_shm_fd shm_key m = -1 /\ exists h, os_shm_open os h shm_key = fd)) ->
  inv (StdMap.insert name
         (mkInfo name shm_key offset byte_size fd addr MEMORY_CPU 0) m).
Proof.
  intros I Hfd Hscan. pose proof I as [I1 I2 I3 I4 I5].
  assert (Hold : forall k r, In (k, r) m -> kind_ r = MEMORY_CPU ->
                   shm_key_ r = shm_key -> shm_fd_ r = fd).
  { intros k r Hin K <-. rewrite <- (scan_shm_fd_cpu m k r I Hin K).
    destruct Hscan as [E | [E _]]; [exact E|].
    exfalso. apply (I2 k r Hin K).
    now rewrite <- (scan_shm_fd_cpu m k r I Hin K). }
  constructor.
  - now apply StdMapFacts.ok_insert.
  - intros k r H K. apply StdMapFacts.In_insert in H.
    destruct H as [[= -> ->] | H]; [exact Hfd | eauto].
  - intros k r H K. apply StdMapFacts.In_insert in H.
    destruct H as [[= -> ->] | H]; [discriminate | eauto].
  - intros G k r H K. apply StdMapFacts.In_insert in H.
    destruct H as [[= -> ->] | H]; [simpl | eauto].
    intros ->. destruct Hscan as [E | [_ [h E]]].
    + destruct (scan_shm_fd_found EmptyString m)
        as [[E' _] | (k' & r' & Hin' & Hk & E')]; [congruence|].
      destruct (kind_ r') eqn:K'.
      * now apply (I4 G k' r' Hin' K').
      * destruct (I3 k' r' Hin' K') as (_ & _ & ?). congruence.
    + rewrite (posix_shm_open G h) in E. congruence.
  - intros k1 r1 k2 r2 H1 H2 K1 K2 Hk.
    apply StdMapFacts.In_insert in H1. apply StdMapFacts.In_insert in H2.
    destruct H1 as [[= -> ->] | H1], H2 as [[= -> ->] | H2]; simpl in *.
    + reflexivity.
    + symmetry. eauto.
    + eauto.
    + eauto.
Qed.

Lemma RegisterSharedMemory_inv name shm_key offset byte_size w :
  inv (shared_memory_map_ w) ->
  inv (shared_memory_map_
         (snd (RegisterSharedMemory os name shm_key offset byte_size w))).
Proof.
  intros I.
  unfold RegisterSharedMemory, OpenSharedMemoryRegion, MapSharedMemory. run.
  destruct (StdMap.find name (shared_memory_map_ w)) eqn:F; simpl; auto.
  destruct (scan_shm_fd shm_key (shared_memory_map_ w) =? -1) eqn:S; simpl.
  - destruct (os_shm_open os _ shm_key =? -1) eqn:O; simpl; auto.
    destruct (os_mmap os _ _ _ _ =? MAP_FAILED) eqn:Mm; simpl; auto.
    apply Z.eqb_eq in S. apply Z.eqb_neq in O.
    apply table_inv_insert_cpu; eauto.
  - destruct (os_mmap os _ _ _ _ =? MAP_FAILED) eqn:Mm; simpl; auto.
    apply Z.eqb_neq in S. apply table_inv_insert_cpu; auto.
Qed.

Lemma RegisterCudaSharedMemory_inv name handle byte_size device_id w :
  TRTIS_ENABLE_GPU = true ->
  inv (shared_memory_map_ w) ->
  inv (shared_memory_map_
         (snd (RegisterCudaSharedMemory os name handle byte_size device_id w))).
Proof.
  intros G I. unfold RegisterCudaSharedMemory, OpenCudaIPCRegion. run.
  destruct (StdMap.find name (shared_memory_map_ w)) eqn:F; simpl; auto.
  destruct (os_cudaIpcOpenMemHandle os _ handle) as [err ptr]; simpl.
  destruct (err =? cudaSuccess); simpl; auto.
  now apply table_inv_insert_gpu.
Qed.

Lemma Helper_inv name w :
  inv (shared_memory_map_ w) -> inv (shared_memory_map_ (snd (Helper name w))).
Proof.
  intros I.
  destruct (StdMap.find name (shared_memory_map_ w)) as [it|] eqn:F.
  - pose proof (Helper_present name it w F) as HP.
    destruct (Helper name w) as [st w']. simpl.
    destruct HP as [[_ ->] | [_ ->]]; auto. now apply table_inv_erase.
  - now rewrite Helper_absent.
Qed.

Lemma unregister_all_loop_inv fuel : forall it fails w fails' w',
  inv (shared_memory_map_ w) ->
  unregister_all_loop os TRTIS_ENABLE_GPU fuel it fails w = Returns fails' w' ->
  inv (shared_memory_map_ w').
Proof.
  induction fuel as [|fuel IH]; intros it fails w fails' w' I; simpl;
    destruct it as [first|]; try discriminate; try (intros [= _ <-]; exact I).
  pose proof (Helper_inv first w I) as I1.
  destruct (Helper first w) as [st w1]. simpl in I1.
  destruct (StdMap.increment first (shared_memory_map_ w1)); [|discriminate].
  now apply IH.
Qed.

Lemma exec_inv o w w' :
  inv (shared_memory_map_ w) ->
  exec os TRTIS_ENABLE_GPU o w = Some w' ->
  inv (shared_memory_map_ w').
Proof.
  intros I. destruct o; simpl.
  - intros [= <-]. now apply RegisterSharedMemory_inv.
  - destruct TRTIS_ENABLE_GPU eqn:G; [|discriminate].
    intros [= <-]. rewrite <- G in *. now apply RegisterCudaSharedMemory_inv.
  - intros [= <-]. unfold UnregisterSharedMemory. run.
    pose proof (Helper_inv name (mkWorld (shared_memory_map_ w) (EvLock :: trace w)) I) as I1.
    destruct (Helper name _) as [st w1]. exact I1.
  - unfold UnregisterAllSharedMemory.
    destruct (unregister_all_loop _ _ _ _ _ _) as [fails w1| |] eqn:L;
      try discriminate.
    apply unregister_all_loop_inv in L; [|exact I].
    destruct fails; intros [= <-]; exact L.
  - intros [= <-]. unfold GetSharedMemoryStatus. run. exact I.
  - intros [= <-]. unfold SharedMemoryAddress. run.
    destruct (StdMap.find name (shared_memory_map_ w)) as [it|]; simpl; auto.
    destruct (kind_ it); exact I.
Qed.

End Invariant.


End Properties.

(** * Concrete runs *)

Example w_a_table : shared_memory_map_ w_a = [("a", info_a)].
Proof. reflexivity. Qed.

Example w_ab_table : shared_memory_map_ w_ab = [("a", info_a); ("b", info_b)].
Proof. reflexivity. Qed.

(** C1. The table holds the single record [a], on key [/k] with
    descriptor 4.  Unregistering [a] succeeds, unmaps its window and
    empties the table, and makes no [close] call: descriptor 4 is left
    open although [a] was the last record of its key. *)
Theorem C1_last_record_descriptor_not_closed :
  let (st, w') := UnregisterSharedMemory os_good true "a" w_a in
  st = Status_Success /\
  shared_memory_map_ w' = [] /\
  trace w' = EvUnlock :: EvMunmap 8192 16 0 :: EvLock :: trace w_a /\
  trace w_a = [EvUnlock; EvMmap 16 4 0 8192; EvShmOpen "/k" 4; EvLock] /\
  existsb (is_close_of 4) (trace w') = false /\
  left_open 4 (trace w') = true.
Proof. vm_compute. repeat split. Qed.

(** C5. [UnregisterAllSharedMemory] on the table [a], [b] (and on the
    table [a] alone) with every operating-system call succeeding: the
    first unregistration erases the node the loop stands on, and the
    loop's next step has no defined behaviour; [b] is never attempted
    and the call does not return. *)
Theorem C5_unregister_all_erases_under_its_iterator :
  UnregisterAllSharedMemory os_good true w_ab
  = Undefined (mkWorld [("b", info_b)]
                 (EvMunmap 8192 16 0 :: EvLock :: trace w_ab)) /\
  UnregisterAllSharedMemory os_good true w_a
  = Undefined (mkWorld [] (EvMunmap 8192 16 0 :: EvLock :: trace w_a)).
Proof. vm_compute. split; reflexivity. Qed.

(** [UnregisterAllSharedMemory] where every [munmap] fails: no record
    is erased, the loop visits [a] and [b], and the aggregate error
    names both. *)
Example unregister_all_collects_failures :
  UnregisterAllSharedMemory (os_sample true false true) true w_ab
  = Returns
      (mkStatus INTERNAL
         "Failed to unregister the following shared memory regions: a ,b ,")
      (mkWorld [("a", info_a); ("b", info_b)]
         (EvUnlock :: EvMunmap 20480 16 (-1) :: EvMunmap 8192 16 (-1)
            :: EvLock :: trace w_ab)).
Proof. vm_compute. reflexivity. Qed.

Example get_status_after_create :
  fst (GetSharedMemoryStatus [] (Create [])) = (Status_Success, []).
Proof. reflexivity. Qed.

(** Why C7 asks that [shm_open] reject the empty name in device
    builds.  The scan of a registration stops at the first record whose
    [shm_key_] equals the key, and a device record carries the empty
    key with descriptor [-1].  On an operating system that opened the
    empty name, two host regions registered on the empty key after a
    device region would each get a descriptor of their own. *)
Example empty_key_under_lenient_shm_open :
  let w_g :=
    snd (RegisterCudaSharedMemory os_lenient "g" "handle" 8 0 (Create [])) in
  let w_h1 := snd (RegisterSharedMemory os_lenient "h1" EmptyString 0 8 w_g) in
  let w_h2 := snd (RegisterSharedMemory os_lenient "h2" EmptyString 8 8 w_h1) in
  map (fun p => (fst p, kind_ (snd p), shm_key_ (snd p), shm_fd_ (snd p)))
      (shared_memory_map_ w_h2)
  = [("g", MEMORY_GPU, EmptyString, -1);
     ("h1", MEMORY_CPU, EmptyString, 8);
     ("h2", MEMORY_CPU, EmptyString, 12)].
Proof. vm_compute. reflexivity. Qed.


(** ** Instances of the theorems with hypotheses *)

Lemma C8_unregister_absent_instance :
  StdMap.find "zz" (shared_memory_map_ w_a) = None /\
  fst (UnregisterSharedMemory os_good true "zz" w_a) = Status_Success /\
  shared_memory_map_ (snd (UnregisterSharedMemory os_good true "zz" w_a))
  = [("a", info_a)].
Proof.
  split; [reflexivity|].
  pose proof (C8_unregister_absent_is_noop os_good true "zz" w_a eq_refl) as H.
  destruct (UnregisterSharedMemory os_good true "zz" w_a) as [st w'].
  destruct H as (H1 & H2 & _). simpl. split; [exact H1 | exact H2].
Defined.

Lemma C4_register_existing_instance :
  StdMap.find "a" (shared_memory_map_ w_a) = Some info_a /\
  status_code (fst (RegisterSharedMemory os_good "a" "/other" 0 8 w_a))
  = ALREADY_EXISTS /\
  status_code (fst (RegisterCudaSharedMemory os_good "a" "handle" 8 0 w_a))
  = ALREADY_EXISTS.
Proof.
  split; [reflexivity|].
  destruct (C4_register_existing_name os_good "a" info_a w_a eq_refl) as [H1 H2].
  specialize (H1 "/other" 0 8). specialize (H2 "handle" 8 0).
  destruct (RegisterSharedMemory os_good "a" "/other" 0 8 w_a) as [st1 w1].
  destruct (RegisterCudaSharedMemory os_good "a" "handle" 8 0 w_a) as [st2 w2].
  split; [apply H1 | apply H2].
Defined.

Lemma C6_address_instance :
  StdMap.find "b" (shared_memory_map_ w_ab) = Some info_b /\
  fst (SharedMemoryAddress "b" 4 1000 w_ab)
  = (Status_Success, Some (20480 + 16 + 4)).
Proof.
  split; [reflexivity|].
  pose proof (C6_address_resolution "b" 4 1000 w_ab) as H.
  destruct (SharedMemoryAddress "b" 4 1000 w_ab) as [[st p] w'].
  destruct H as (_ & _ & H & _).
  destruct (H info_b eq_refl) as (-> & Hcpu & _).
  destruct (Hcpu eq_refl) as (_ & Hp).
  rewrite Hp; [reflexivity|]. simpl. lia.
Defined.

Lemma C3_failed_mapping_instance :
  (exists fd h,
     trace (snd (RegisterSharedMemory (os_sample false true true)
                   "c" "/k" 32 16 w_a))
     = EvUnlock :: EvMmap 16 fd 32 MAP_FAILED :: h) /\
  status_code (fst (RegisterSharedMemory (os_sample false true true)
                      "c" "/k" 32 16 w_a)) = INVALID_ARG /\
  shared_memory_map_ (snd (RegisterSharedMemory (os_sample false true true)
                             "c" "/k" 32 16 w_a))
  = [("a", info_a)].
Proof.
  assert (Hev : exists fd h,
     trace (snd (RegisterSharedMemory (os_sample false true true)
                   "c" "/k" 32 16 w_a))
     = EvUnlock :: EvMmap 16 fd 32 MAP_FAILED :: h).
  { exists 4, (EvLock :: trace w_a). reflexivity. }
  split; [exact Hev|].
  pose proof (C3_failed_mapping_registers_nothing (os_sample false true true)
                "c" "/k" 32 16 w_a) as H.
  destruct (RegisterSharedMemory (os_sample false true true)
              "c" "/k" 32 16 w_a) as [st w'].
  destruct H as [H _]. destruct (H Hev) as (H1 & H2 & _).
  simpl. split; [exact H1 | exact H2].
Defined.

Lemma C10_failed_mapping_instance :
  status_code (fst (RegisterSharedMemory (os_sample false true true)
                      "a" "/k" 0 16 (Create []))) = INVALID_ARG /\
  left_open 4 (trace (snd (RegisterSharedMemory (os_sample false true true)
                             "a" "/k" 0 16 (Create [])))) = true.
Proof.
  assert (Hfd : os_shm_open (os_sample false true true)
                  (EvLock :: trace (Create [])) "/k" <> -1)
    by (simpl; lia).
  pose proof (C10_failed_mapping_leaves_descriptor_open
                (os_sample false true true) "a" "/k" 0 16 (Create [])
                eq_refl (fun k r (H : In (k, r) []) => match H with end)
                Hfd eq_refl) as H.
  destruct (RegisterSharedMemory (os_sample false true true)
              "a" "/k" 0 16 (Create [])) as [st w'].
  destruct H as (H1 & _ & _ & _ & H5). simpl. split; [exact H1 | exact H5].
Defined.



(** * Further properties of the manager *)

Lemma erase_insert_new {V} k (v : V) (m : StdMap.t V) :
  StdMap.find k m = None -> StdMap.erase k (StdMap.insert k v m) = m.
Proof.
  induction m as [|[k' v'] m IH]; simpl.
  - now rewrite String.eqb_refl.
  - destruct (String.eqb k' k) eqn:E; [discriminate|]. intros F.
    destruct (String.compare k k') eqn:C; simpl.
    + apply String.compare_eq_iff in C. subst.
      now rewrite String.eqb_refl in E.
    + now rewrite String.eqb_refl.
    + now rewrite E, IH.
Qed.

Example w_ag_table :
  shared_memory_map_ w_ag = [("a", info_a); ("g", info_g)].
Proof. reflexivity. Qed.

Section MoreProperties.

Variable os : OS.
Variable TRTIS_ENABLE_GPU : bool.

Local Abbreviation Helper' := (UnregisterSharedMemoryHelper os TRTIS_ENABLE_GPU).
Local Abbreviation Unregister' := (UnregisterSharedMemory os TRTIS_ENABLE_GPU).

(** ** Registration followed by a lookup *)

(** X1. After a host registration that succeeded, the name resolves,
    for every [offset'] and [byte_size'], to the address the call's own
    [mmap] returned plus the registered [offset] plus [offset'] (the
    window was mapped at [offset] already, and the offset is added
    again). *)
Theorem register_then_resolve_host name shm_key offset byte_size w :
  IsOk (fst (RegisterSharedMemory os name shm_key offset byte_size w)) = true ->
  let w' := snd (RegisterSharedMemory os name shm_key offset byte_size w) in
  exists fd addr h,
    trace w' = EvUnlock :: EvMmap byte_size fd offset addr :: h /\
    addr <> MAP_FAILED /\
    forall offset' byte_size',
      SharedMemoryAddress name offset' byte_size' w'
      = (Status_Success, Some ((addr + offset + offset') mod 2 ^ 64), w').
Proof.
  unfold RegisterSharedMemory, OpenSharedMemoryRegion, MapSharedMemory,
    SharedMemoryAddress. run.
  destruct (StdMap.find name (shared_memory_map_ w)) eqn:F; simpl;
    [discriminate|].
  destruct (scan_shm_fd shm_key (shared_memory_map_ w) =? -1); simpl.
  - destruct (os_shm_open os _ shm_key =? -1); simpl; [discriminate|].
    destruct (os_mmap os _ _ _ _ =? MAP_FAILED) eqn:Mm; simpl; [discriminate|].
    intros _. do 3 eexists. split; [reflexivity|].
    apply Z.eqb_neq in Mm. split; [exact Mm|]. intros.
    rewrite (StdMapFacts.find_insert_new _ _ _ F). simpl.
    now rewrite ptr_add_assoc.
  - destruct (os_mmap os _ _ _ _ =? MAP_FAILED) eqn:Mm; simpl; [discriminate|].
    intros _. do 3 eexists. split; [reflexivity|].
    apply Z.eqb_neq in Mm. split; [exact Mm|]. intros.
    rewrite (StdMapFacts.find_insert_new _ _ _ F). simpl.
    now rewrite ptr_add_assoc.
Qed.

(** X2. After a device registration that succeeded, the name resolves
    to the pointer [cudaIpcOpenMemHandle] returned plus the requested
    offset; the device was set before the handle was opened. *)
Theorem register_then_resolve_device name handle byte_size device_id w :
  IsOk (fst (RegisterCudaSharedMemory os name handle byte_size device_id w))
  = true ->
  let w' :=
    snd (RegisterCudaSharedMemory os name handle byte_size device_id w) in
  exists ptr,
    trace w' = EvUnlock :: EvCudaIpcOpenMemHandle handle cudaSuccess ptr
                 :: EvCudaSetDevice device_id :: EvLock :: trace w /\
    forall offset' byte_size',
      SharedMemoryAddress name offset' byte_size' w'
      = (Status_Success, Some ((ptr + offset') mod 2 ^ 64), w').
Proof.
  unfold RegisterCudaSharedMemory, OpenCudaIPCRegion, SharedMemoryAddress. run.
  destruct (StdMap.find name (shared_memory_map_ w)) eqn:F; simpl;
    [discriminate|].
  destruct (os_cudaIpcOpenMemHandle os _ handle) as [err ptr]; simpl.
  destruct (err =? cudaSuccess) eqn:E; simpl; [|discriminate].
  apply Z.eqb_eq in E. subst err. intros _. exists ptr.
  split; [reflexivity|]. intros.
  now rewrite (StdMapFacts.find_insert_new _ _ _ F).
Qed.

(** ** Registration followed by unregistration *)

(** X3. A host registration that succeeded, followed by an
    unregistration of the same name that succeeded, gives back exactly
    the table from before the registration; and the [munmap] of the
    unregistration is called on the address the registration's [mmap]
    returned, with the registered size. *)
Theorem register_then_unregister_restores name shm_key offset byte_size w :
  let reg := RegisterSharedMemory os name shm_key offset byte_size w in
  IsOk (fst reg) = true ->
  IsOk (fst (Unregister' name (snd reg))) = true ->
  shared_memory_map_ (snd (Unregister' name (snd reg))) = shared_memory_map_ w /\
  exists fd addr h ret,
    trace (snd reg) = EvUnlock :: EvMmap byte_size fd offset addr :: h /\
    trace (snd (Unregister' name (snd reg)))
    = EvUnlock :: EvMunmap addr byte_size ret :: EvLock :: trace (snd reg) /\
    ret <> -1.
Proof.
  intros reg Hreg.
  assert (F : StdMap.find name (shared_memory_map_ w) = None).
  { revert Hreg. unfold reg, RegisterSharedMemory. run.
    destruct (StdMap.find name (shared_memory_map_ w)); simpl;
      [discriminate | reflexivity]. }
  assert (Hw1 : exists fd addr h,
             snd reg = mkWorld
                         (StdMap.insert name
                            (mkInfo name shm_key offset byte_size fd addr
                                    MEMORY_CPU 0) (shared_memory_map_ w))
                         (EvUnlock :: EvMmap byte_size fd offset addr :: h)).
  { revert Hreg. unfold reg, RegisterSharedMemory, OpenSharedMemoryRegion,
      MapSharedMemory. run. rewrite F. simpl.
    destruct (scan_shm_fd shm_key (shared_memory_map_ w) =? -1); simpl.
    - destruct (os_shm_open os _ shm_key =? -1); simpl; [discriminate|].
      destruct (os_mmap os _ _ _ _ =? MAP_FAILED); simpl; [discriminate|].
      intros _. do 3 eexists. reflexivity.
    - destruct (os_mmap os _ _ _ _ =? MAP_FAILED); simpl; [discriminate|].
      intros _. do 3 eexists. reflexivity. }
  destruct Hw1 as (fd & addr & h & Hw1). rewrite Hw1.
  set (info := mkInfo name shm_key offset byte_size fd addr MEMORY_CPU 0).
  unfold UnregisterSharedMemory. run.
  rewrite (Helper_cpu os TRTIS_ENABLE_GPU name info)
    by (simpl; auto using StdMapFacts.find_insert_new).
  simpl. destruct (os_munmap os _ _ _ =? -1) eqn:E; simpl; [discriminate|].
  intros _. split; [now apply erase_insert_new|].
  apply Z.eqb_neq in E. do 4 eexists.
  split; [reflexivity|]. split; [reflexivity | exact E].
Qed.

(** ** What an unregistration leaves behind *)

(** X4. For every state with a well-formed table and every name,
    [UnregisterSharedMemory] either returns Ok, after which the name is
    not registered and every other name has the record it had, or
    returns an error with the table unchanged; the error is [INTERNAL],
    except for a device record in a build without device support,
    where it is [INVALID_ARG]. *)
Theorem unregister_postcondition name w :
  StdMap.ok (shared_memory_map_ w) ->
  let (st, w') := Unregister' name w in
  (IsOk st = true /\
   StdMap.find name (shared_memory_map_ w') = None /\
   forall name', name <> name' ->
     StdMap.find name' (shared_memory_map_ w')
     = StdMap.find name' (shared_memory_map_ w))
  \/ (IsOk st = false /\
      shared_memory_map_ w' = shared_memory_map_ w /\
      (status_code st = INTERNAL
       \/ (status_code st = INVALID_ARG /\ TRTIS_ENABLE_GPU = false /\
           exists it, StdMap.find name (shared_memory_map_ w) = Some it /\
                      kind_ it = MEMORY_GPU))).
Proof.
  intros Hok.
  unfold UnregisterSharedMemory, UnregisterSharedMemoryHelper, close_step,
    UnmapSharedMemory, CloseSharedMemoryRegion, cudaIpcCloseMemHandle. run.
  destruct (StdMap.find name (shared_memory_map_ w)) as [it|] eqn:F; simpl.
  - assert (Herase : StdMap.find name
                       (StdMap.erase name (shared_memory_map_ w)) = None)
      by now apply StdMapFacts.find_erase_same.
    assert (Hother : forall name', name <> name' ->
              StdMap.find name' (StdMap.erase name (shared_memory_map_ w))
              = StdMap.find name' (shared_memory_map_ w))
      by (intros; now apply StdMapFacts.find_erase_other).
    destruct (kind_ it) eqn:K; simpl.
    + destruct (os_munmap os _ _ _ =? -1); simpl; [right; auto|].
      destruct (scan_last_one _ _); simpl; [|left; auto].
      destruct (os_close os _ _ =? -1); simpl; [right; auto | left; auto].
    + destruct TRTIS_ENABLE_GPU; simpl.
      * destruct (os_cudaIpcCloseMemHandle os _ _ =? cudaSuccess); simpl;
          [left; auto | right; auto].
      * right. repeat split; auto. right. repeat split; auto. now exists it.
  - left. repeat split; auto.
Qed.

(** ** Names do not interfere *)

Lemma RegisterCudaSharedMemory_other_names name name' handle byte_size
    device_id w :
  name <> name' ->
  StdMap.find name'
    (shared_memory_map_
       (snd (RegisterCudaSharedMemory os name handle byte_size device_id w)))
  = StdMap.find name' (shared_memory_map_ w).
Proof.
  intros Hne. unfold RegisterCudaSharedMemory, OpenCudaIPCRegion. run.
  destruct (StdMap.find name (shared_memory_map_ w)); simpl; auto.
  destruct (os_cudaIpcOpenMemHandle os _ handle) as [err ptr]; simpl.
  destruct (err =? cudaSuccess); simpl; auto.
  now apply StdMapFacts.find_insert_other.
Qed.

Lemma SharedMemoryAddress_by_record name offset byte_size w1 w2 :
  StdMap.find name (shared_memory_map_ w1)
  = StdMap.find name (shared_memory_map_ w2) ->
  fst (SharedMemoryAddress name offset byte_size w1)
  = fst (SharedMemoryAddress name offset byte_size w2).
Proof.
  intros H. unfold SharedMemoryAddress. run. rewrite H.
  destruct (StdMap.find name (shared_memory_map_ w2)) as [it|]; simpl; auto.
  destruct (kind_ it); reflexivity.
Qed.

(** X5. Registering or unregistering one name, whether it succeeds or
    fails, never changes what another name resolves to: the status and
    the pointer of [SharedMemoryAddress] for [name'] are the same
    before and after. *)
Theorem other_names_resolve_alike name name' offset byte_size w :
  name <> name' ->
  (forall shm_key off size,
     fst (SharedMemoryAddress name' offset byte_size
            (snd (RegisterSharedMemory os name shm_key off size w)))
     = fst (SharedMemoryAddress name' offset byte_size w)) /\
  (forall handle size device_id,
     fst (SharedMemoryAddress name' offset byte_size
            (snd (RegisterCudaSharedMemory os name handle size device_id w)))
     = fst (SharedMemoryAddress name' offset byte_size w)) /\
  fst (SharedMemoryAddress name' offset byte_size (snd (Unregister' name w)))
  = fst (SharedMemoryAddress name' offset byte_size w).
Proof.
  intros Hne. repeat split; intros; apply SharedMemoryAddress_by_record.
  - now apply RegisterSharedMemory_other_names.
  - now apply RegisterCudaSharedMemory_other_names.
  - unfold UnregisterSharedMemory. run.
    pose proof (Helper_other_names os TRTIS_ENABLE_GPU name name'
                  (mkWorld (shared_memory_map_ w) (EvLock :: trace w)) Hne) as H.
    destruct (UnregisterSharedMemoryHelper _ _ _ _) as [st w1]. exact H.
Qed.

(** ** The status report *)

Lemma region_name_status info : region_name (region_status info) = name_ info.
Proof. unfold region_status. now destruct (kind_ info). Qed.

(** X6. On a well-formed table whose records sit under their own
    names, [GetSharedMemoryStatus] returns success, leaves the table
    alone and appends to the report exactly one entry per registered
    region, in increasing order of name and so without repeats; the
    entry of a host region carries its key, offset and size, the entry
    of a device region its device and size. *)
Theorem status_report_lists_every_region shm_status w :
  StdMap.ok (shared_memory_map_ w) ->
  names_consistent (shared_memory_map_ w) ->
  let '(st, report, w') := GetSharedMemoryStatus shm_status w in
  st = Status_Success /\
  shared_memory_map_ w' = shared_memory_map_ w /\
  exists entries,
    report = (shm_status ++ entries)%list /\
    map region_name entries = StdMap.keys (shared_memory_map_ w) /\
    NoDup (map region_name entries) /\
    forall k r,
      StdMap.find k (shared_memory_map_ w) = Some r ->
      In (match kind_ r with
          | MEMORY_CPU =>
              SystemSharedMemory k (shm_key_ r) (offset_ r) (byte_size_ r)
          | MEMORY_GPU => CudaSharedMemory k (device_id_ r) (byte_size_ r)
          end) entries.
Proof.
  intros Hok Hn. unfold GetSharedMemoryStatus. run.
  split; [reflexivity|]. split; [reflexivity|].
  exists (map (fun shm_info => region_status (snd shm_info))
            (shared_memory_map_ w)).
  split; [reflexivity|].
  assert (Hk : map region_name
                 (map (fun shm_info => region_status (snd shm_info))
                    (shared_memory_map_ w))
               = StdMap.keys (shared_memory_map_ w)).
  { unfold StdMap.keys. rewrite map_map. apply map_ext_in.
    intros [k r] Hin. simpl. rewrite region_name_status. now apply Hn. }
  split; [exact Hk|]. split.
  - rewrite Hk. now apply StdMapFacts.ok_NoDup.
  - intros k r F. apply StdMapFacts.find_In in F.
    apply in_map_iff. exists (k, r). split; [|exact F].
    simpl. unfold region_status. rewrite (Hn k r F). reflexivity.
Qed.

(** The loop of [UnregisterAllSharedMemory] keeps whatever the erasure
    of a record keeps. *)
Lemma unregister_all_loop_preserves (P : Table -> Prop) :
  (forall k m, P m -> P (StdMap.erase k m)) ->
  forall fuel it fails w fails' w',
    P (shared_memory_map_ w) ->
    unregister_all_loop os TRTIS_ENABLE_GPU fuel it fails w = Returns fails' w' ->
    P (shared_memory_map_ w').
Proof.
  intros HP. induction fuel as [|fuel IH]; intros it fails w fails' w' I; simpl;
    destruct it as [first|]; try discriminate; try (intros [= _ <-]; exact I).
  assert (I1 : P (shared_memory_map_ (snd (Helper' first w)))).
  { destruct (StdMap.find first (shared_memory_map_ w)) as [it|] eqn:F.
    - pose proof (Helper_present os TRTIS_ENABLE_GPU first it w F) as H.
      destruct (Helper' first w) as [st w1]. simpl.
      destruct H as [[_ ->] | [_ ->]]; auto.
    - now rewrite Helper_absent. }
  destruct (Helper' first w) as [st w1]. simpl in I1.
  destruct (StdMap.increment first (shared_memory_map_ w1)); [|discriminate].
  now apply IH.
Qed.

Lemma names_consistent_erase k m :
  names_consistent m -> names_consistent (StdMap.erase k m).
Proof. intros H k' r Hin. apply StdMapFacts.In_erase in Hin. auto. Qed.

Lemma names_consistent_insert name info m :
  name_ info = name -> names_consistent m ->
  names_consistent (StdMap.insert name info m).
Proof.
  intros Hname H k r Hin. apply StdMapFacts.In_insert in Hin.
  destruct Hin as [[= -> ->] | Hin]; auto.
Qed.

(** X7. Every record of the table sits under the name stored in it,
    and the table is sorted by name: both hold of the table of a new
    manager and are kept by every operation that returns. *)
Theorem names_consistent_invariant :
  (forall h, StdMap.ok (shared_memory_map_ (Create h)) /\
             names_consistent (shared_memory_map_ (Create h))) /\
  forall o w w',
    StdMap.ok (shared_memory_map_ w) /\
    names_consistent (shared_memory_map_ w) ->
    exec os TRTIS_ENABLE_GPU o w = Some w' ->
    StdMap.ok (shared_memory_map_ w') /\
    names_consistent (shared_memory_map_ w').
Proof.
  set (P := fun m : Table => StdMap.ok m /\ names_consistent m).
  assert (HPe : forall k m, P m -> P (StdMap.erase k m)).
  { intros k m [H1 H2]. split;
      [now apply StdMapFacts.ok_erase | now apply names_consistent_erase]. }
  assert (HPi : forall name info m,
             name_ info = name -> P m -> P (StdMap.insert name info m)).
  { intros name info m Hn [H1 H2]. split;
      [now apply StdMapFacts.ok_insert | now apply names_consistent_insert]. }
  split.
  - intros h. split; [constructor | intros k r []].
  - intros o w w' I. change (P (shared_memory_map_ w)) in I.
    change (exec os TRTIS_ENABLE_GPU o w = Some w' -> P (shared_memory_map_ w')).
    destruct o; simpl.
    + intros [= <-].
      unfold RegisterSharedMemory, OpenSharedMemoryRegion, MapSharedMemory. run.
      destruct (StdMap.find name (shared_memory_map_ w)); simpl; auto.
      destruct (scan_shm_fd shm_key (shared_memory_map_ w) =? -1); simpl.
      * destruct (os_shm_open os _ shm_key =? -1); simpl; auto.
        destruct (os_mmap os _ _ _ _ =? MAP_FAILED); simpl; auto.
      * destruct (os_mmap os _ _ _ _ =? MAP_FAILED); simpl; auto.
    + destruct TRTIS_ENABLE_GPU; [|discriminate]. intros [= <-].
      unfold RegisterCudaSharedMemory, OpenCudaIPCRegion. run.
      destruct (StdMap.find name (shared_memory_map_ w)); simpl; auto.
      destruct (os_cudaIpcOpenMemHandle os _ cuda_shm_handle) as [err ptr].
      simpl. destruct (err =? cudaSuccess); simpl; auto.
    + intros [= <-]. unfold UnregisterSharedMemory. run.
      set (w0 := mkWorld (shared_memory_map_ w) (EvLock :: trace w)).
      destruct (StdMap.find name (shared_memory_map_ w0)) as [it|] eqn:F.
      * pose proof (Helper_present os TRTIS_ENABLE_GPU name it w0 F) as H.
        destruct (Helper' name w0) as [st w1]. simpl.
        destruct H as [[_ ->] | [_ ->]]; auto.
      * rewrite Helper_absent by exact F. exact I.
    + unfold UnregisterAllSharedMemory.
      destruct (unregister_all_loop _ _ _ _ _ _) as [fails w1| |] eqn:L;
        try discriminate.
      apply (unregister_all_loop_preserves P HPe) in L; [|exact I].
      destruct fails; intros [= <-]; exact L.
    + intros [= <-]. unfold GetSharedMemoryStatus. run. exact I.
    + intros [= <-]. unfold SharedMemoryAddress. run.
      destruct (StdMap.find name (shared_memory_map_ w)) as [it|]; simpl; auto.
      destruct (kind_ it); exact I.
Qed.

(** ** Descriptors are never closed *)

Lemma Helper_closes name w :
  closes (trace (snd (Helper' name w))) = closes (trace w).
Proof.
  destruct (StdMap.find name (shared_memory_map_ w)) as [it|] eqn:F.
  - destruct (kind_ it) eqn:K.
    + rewrite (Helper_cpu os TRTIS_ENABLE_GPU name it w F K). simpl.
      now destruct (os_munmap os _ _ _ =? -1).
    + unfold UnregisterSharedMemoryHelper, cudaIpcCloseMemHandle. run.
      rewrite F, K. destruct TRTIS_ENABLE_GPU; simpl; auto.
      now destruct (os_cudaIpcCloseMemHandle os _ _ =? cudaSuccess).
  - now rewrite Helper_absent.
Qed.

Lemma unregister_all_loop_closes fuel : forall it fails w fails' w',
  unregister_all_loop os TRTIS_ENABLE_GPU fuel it fails w = Returns fails' w' ->
  closes (trace w') = closes (trace w).
Proof.
  induction fuel as [|fuel IH]; intros it fails w fails' w'; simpl;
    destruct it as [first|]; try discriminate;
    try (intros [= _ <-]; reflexivity).
  pose proof (Helper_closes first w) as H1.
  destruct (Helper' first w) as [st w1]. simpl in H1.
  destruct (StdMap.increment first (shared_memory_map_ w1)); [|discriminate].
  intros L. apply IH in L. congruence.
Qed.

(** X8. No operation of the manager that returns ever calls [close]:
    the [close] calls in the trace after the operation are those that
    were in it before.  (The only [close] of the file stands behind
    [last_one], which the scan of the helper never leaves true.) *)
Theorem manager_never_closes o w w' :
  exec os TRTIS_ENABLE_GPU o w = Some w' ->
  closes (trace w') = closes (trace w).
Proof.
  destruct o; simpl.
  - intros [= <-].
    unfold RegisterSharedMemory, OpenSharedMemoryRegion, MapSharedMemory. run.
    destruct (StdMap.find name (shared_memory_map_ w)); simpl; auto.
    destruct (scan_shm_fd shm_key (shared_memory_map_ w) =? -1); simpl.
    + destruct (os_shm_open os _ shm_key =? -1); simpl; auto.
      destruct (os_mmap os _ _ _ _ =? MAP_FAILED); simpl; auto.
    + destruct (os_mmap os _ _ _ _ =? MAP_FAILED); simpl; auto.
  - destruct TRTIS_ENABLE_GPU; [|discriminate]. intros [= <-].
    unfold RegisterCudaSharedMemory, OpenCudaIPCRegion. run.
    destruct (StdMap.find name (shared_memory_map_ w)); simpl; auto.
    destruct (os_cudaIpcOpenMemHandle os _ cuda_shm_handle) as [err ptr].
    simpl. destruct (err =? cudaSuccess); simpl; auto.
  - intros [= <-]. unfold UnregisterSharedMemory. run.
    pose proof (Helper_closes name
                  (mkWorld (shared_memory_map_ w) (EvLock :: trace w))) as H.
    destruct (Helper' name _) as [st w1]. exact H.
  - unfold UnregisterAllSharedMemory.
    destruct (unregister_all_loop _ _ _ _ _ _) as [fails w1| |] eqn:L;
      try discriminate.
    apply unregister_all_loop_closes in L.
    destruct fails; intros [= <-]; exact L.
  - intros [= <-]. reflexivity.
  - intros [= <-]. unfold SharedMemoryAddress. run.
    destruct (StdMap.find name (shared_memory_map_ w)) as [it|]; simpl; auto.
    destruct (kind_ it); reflexivity.
Qed.

(** ** A host registration whose [shm_open] fails *)

(** X9. For every host registration of a free name whose key no live
    record carries and whose [shm_open] fails: the call returns the
    [INTERNAL] status of [OpenSharedMemoryRegion], whose message names
    the key, makes no [mmap], and leaves the table as it was. *)
Theorem failed_open_registers_nothing name shm_key offset byte_size w :
  StdMap.find name (shared_memory_map_ w) = None ->
  (forall k r, In (k, r) (shared_memory_map_ w) -> shm_key_ r <> shm_key) ->
  os_shm_open os (EvLock :: trace w) shm_key = -1 ->
  RegisterSharedMemory os name shm_key offset byte_size w
  = (mkStatus INTERNAL
       ("Unable to open shared memory region: '" ++ shm_key ++ "'"),
     mkWorld (shared_memory_map_ w)
       (EvUnlock :: EvShmOpen shm_key (-1) :: EvLock :: trace w)).
Proof.
  intros F Hkey Hopen.
  unfold RegisterSharedMemory, OpenSharedMemoryRegion. run.
  rewrite F, (scan_shm_fd_no_key _ _ Hkey). simpl.
  rewrite Hopen. reflexivity.
Qed.

(** ** The status codes of a registration *)

(** X10. A registration, host or device, returns [ALREADY_EXISTS]
    exactly when the name is registered; a device registration of a
    free name returns success or [INVALID_ARG] with one fixed message,
    whatever error the CUDA runtime reported, and never [INTERNAL];
    and every registration that does not succeed leaves the table
    unchanged. *)
Theorem registration_status_codes name w :
  (forall shm_key offset byte_size,
     let (st, w') := RegisterSharedMemory os name shm_key offset byte_size w in
     (status_code st = ALREADY_EXISTS <->
      StdMap.find name (shared_memory_map_ w) <> None) /\
     (IsOk st = false -> shared_memory_map_ w' = shared_memory_map_ w)) /\
  (forall handle byte_size device_id,
     let (st, w') :=
       RegisterCudaSharedMemory os name handle byte_size device_id w in
     (status_code st = ALREADY_EXISTS <->
      StdMap.find name (shared_memory_map_ w) <> None) /\
     (IsOk st = false -> shared_memory_map_ w' = shared_memory_map_ w) /\
     (StdMap.find name (shared_memory_map_ w) = None ->
      st = Status_Success
      \/ st = mkStatus INVALID_ARG
                ("failed to register shared memory region '" ++ name ++ "'"))).
Proof.
  split; intros.
  - unfold RegisterSharedMemory, OpenSharedMemoryRegion, MapSharedMemory. run.
    destruct (StdMap.find name (shared_memory_map_ w)) eqn:F; simpl.
    { split; [split; [discriminate | reflexivity] | reflexivity]. }
    destruct (scan_shm_fd shm_key (shared_memory_map_ w) =? -1); simpl.
    + destruct (os_shm_open os _ shm_key =? -1); simpl.
      { split; [split; [discriminate | congruence] | reflexivity]. }
      destruct (os_mmap os _ _ _ _ =? MAP_FAILED); simpl;
        (split; [split; [discriminate | congruence] | ]);
        [reflexivity | discriminate].
    + destruct (os_mmap os _ _ _ _ =? MAP_FAILED); simpl;
        (split; [split; [discriminate | congruence] | ]);
        [reflexivity | discriminate].
  - unfold RegisterCudaSharedMemory, OpenCudaIPCRegion. run.
    destruct (StdMap.find name (shared_memory_map_ w)) eqn:F; simpl.
    { split; [split; [discriminate | reflexivity] |].
      split; [reflexivity | discriminate]. }
    destruct (os_cudaIpcOpenMemHandle os _ handle) as [err ptr]; simpl.
    destruct (err =? cudaSuccess); simpl;
      (split; [split; [discriminate | congruence] |]); split;
      try reflexivity; try discriminate; auto.
Qed.

(** ** Unregistering everything, in general *)

(** X11. On a well-formed table [UnregisterAllSharedMemory] stays
    within the loop bound of the model, and whenever it returns, every
    unregistration it made has failed: the table is the one from
    before the call, the result is Ok exactly when the table is empty,
    and otherwise it is [INTERNAL] with a message that lists every
    registered name in map order; the mutex was taken and released
    around it. *)
Theorem unregister_all_returns_only_failures w :
  StdMap.ok (shared_memory_map_ w) ->
  UnregisterAllSharedMemory os TRTIS_ENABLE_GPU w <> OutOfFuel /\
  forall st w',
    UnregisterAllSharedMemory os TRTIS_ENABLE_GPU w = Returns st w' ->
    shared_memory_map_ w' = shared_memory_map_ w /\
    (IsOk st = true <-> shared_memory_map_ w = []) /\
    (shared_memory_map_ w <> [] ->
     st = mkStatus INTERNAL
            (unregister_error_message (StdMap.keys (shared_memory_map_ w)))) /\
    under_lock (trace w) (trace w').
Proof.
  intros Hok.
  destruct (UnregisterAllSharedMemory_returns os TRTIS_ENABLE_GPU w Hok)
    as [Hfuel Hret].
  split; [exact Hfuel|]. intros st w' E.
  destruct (Hret st w' E) as (H1 & H2 & H3).
  split; [exact H1|]. split; [|split; [exact H3|]].
  - split.
    + intros Hst. destruct (shared_memory_map_ w) eqn:Em; [reflexivity|].
      rewrite H3 in Hst by discriminate. discriminate.
    + intros Em. now rewrite (H2 Em).
  - eapply UnregisterAllSharedMemory_under_lock; eauto.
Qed.

End MoreProperties.


(** * Properties of the shape and data-type utilities *)


Lemma for_loop_None {R} (body : nat -> option R) count : forall i,
  for_loop count i body = None <->
  forall j, (i <= j < i + count)%nat -> body j = None.
Proof.
  induction count as [|count IH]; intros i; simpl.
  - split; [intros _ j Hj; lia | reflexivity].
  - destruct (body i) eqn:B.
    + split; [discriminate|]. intros H. rewrite (H i) in B by lia. discriminate.
    + rewrite IH. split; intros H j Hj.
      * destruct (Nat.eq_dec j i) as [->|]; [exact B | apply H; lia].
      * apply H. lia.
Qed.

Lemma for_loop_Some {R} (body : nat -> option R) count : forall i r,
  for_loop count i body = Some r ->
  exists j, (i <= j < i + count)%nat /\ body j = Some r /\
            forall k, (i <= k < j)%nat -> body k = None.
Proof.
  induction count as [|count IH]; intros i r; simpl; [discriminate|].
  destruct (body i) eqn:B.
  - intros [= ->]. exists i. split; [lia|]. split; [exact B|]. intros k Hk. lia.
  - intros H. destruct (IH _ _ H) as (j & Hj & Hb & Hk).
    exists j. split; [lia|]. split; [exact Hb|].
    intros k Hk'. destruct (Nat.eq_dec k i) as [->|]; [exact B | apply Hk; lia].
Qed.

Lemma string_app_assoc (a b c : string) : (a ++ b) ++ c = a ++ (b ++ c).
Proof. induction a; simpl; congruence. Qed.

Lemma string_app_nil_r (a : string) : a ++ EmptyString = a.
Proof. induction a; simpl; congruence. Qed.

Lemma Forall2_nth_iff {A B} (R : A -> B -> Prop) (da : A) (db : B) :
  forall l1 l2,
    Forall2 R l1 l2 <->
    List.length l1 = List.length l2 /\
    forall i, (i < List.length l1)%nat -> R (nth i l1 da) (nth i l2 db).
Proof.
  induction l1 as [|x l1 IH]; intros [|y l2]; simpl.
  - split; [intros _; split; [reflexivity | intros i Hi; lia] | constructor].
  - split; [intros H; inversion H | intros [H _]; discriminate].
  - split; [intros H; inversion H | intros [H _]; discriminate].
  - rewrite Forall2_cons_iff, IH. split.
    + intros (Hxy & Hlen & Hnth). split; [congruence|].
      intros [|i] Hi; [exact Hxy | apply Hnth; lia].
    + intros (Hlen & Hnth). split; [apply (Hnth 0%nat); lia|].
      split; [congruence|]. intros i Hi. apply (Hnth (S i)). lia.
Qed.

Lemma for_loop_ext {R} (body1 body2 : nat -> option R) count : forall i,
  (forall j, (i <= j < i + count)%nat -> body1 j = body2 j) ->
  for_loop count i body1 = for_loop count i body2.
Proof.
  induction count as [|count IH]; intros i H; simpl; [reflexivity|].
  rewrite (H i) by lia. destruct (body2 i); [reflexivity|].
  apply IH. intros j Hj. apply H. lia.
Qed.

Lemma nth_firstn_lt {A} (l : list A) n i (da : A) :
  (i < n)%nat -> nth i (firstn n l) da = nth i l da.
Proof.
  intros H. rewrite nth_firstn.
  destruct (Nat.ltb_spec i n); [reflexivity | lia].
Qed.

Module TfUtilsFacts.

Import TfUtils.

(** X12. Over the enumerators they name, the two [ConvertDataType]
    conversions are inverse to each other, and [CompareDataType] holds
    exactly when the configuration
    type is the conversion of the model's type and is not
    [TYPE_INVALID]. *)
Theorem ConvertDataType_round_trip :
  (forall dtype, ConvertDataType (ConvertDataType_to_tf dtype) = dtype) /\
  (forall model_dtype,
     ConvertDataType_to_tf (ConvertDataType model_dtype) = model_dtype) /\
  (forall model_dtype dtype,
     CompareDataType model_dtype dtype = true <->
     dtype = ConvertDataType model_dtype /\ dtype <> TYPE_INVALID).
Proof.
  split; [|split].
  - now destruct dtype.
  - now destruct model_dtype.
  - intros model_dtype dtype. unfold CompareDataType.
    destruct model_dtype, dtype; simpl; split;
      try discriminate; try (intros [H1 H2]; congruence);
      intros _; split; congruence.
Qed.

Lemma exact_loop_spec (shape : TRTISTF_Shape) (dims : DimsList) off :
  List.length shape = (List.length dims + off)%nat ->
  (for_loop (List.length dims) 0
     (fun i => if negb (dims_ shape (i + off) =? nth i dims 0)
               then Some false else None) = None
   <-> skipn off shape = dims).
Proof.
  intros Hlen. rewrite for_loop_None. split.
  - intros H. apply (nth_ext _ _ 0 0).
    + rewrite length_skipn. lia.
    + intros n Hn. rewrite length_skipn in Hn.
      rewrite nth_skipn. specialize (H n ltac:(lia)).
      unfold dims_ in H. rewrite Nat.add_comm.
      destruct (nth (n + off) shape 0 =? nth n dims 0) eqn:E;
        [now apply Z.eqb_eq in E | discriminate].
  - intros <- j Hj. unfold dims_. rewrite nth_skipn, (Nat.add_comm off j).
    now rewrite Z.eqb_refl.
Qed.

Lemma exact_tail_spec (shape : TRTISTF_Shape) (dims : DimsList) off :
  (if negb (rank_ shape =? List.length dims + off)%nat then false
   else
     match for_loop (List.length dims) 0
             (fun i => if negb (dims_ shape (i + off) =? nth i dims 0)
                       then Some false else None) with
     | Some r => r
     | None => true
     end) = true
  <-> List.length shape = (List.length dims + off)%nat /\ skipn off shape = dims.
Proof.
  unfold rank_.
  destruct (Nat.eqb_spec (List.length shape) (List.length dims + off)) as [El|El];
    simpl.
  - pose proof (exact_loop_spec shape dims off El) as H.
    destruct (for_loop _ _ _) as [r|] eqn:L.
    + assert (r = false).
      { apply for_loop_Some in L. destruct L as (j & _ & Hb & _).
        destruct (negb _) in Hb; congruence. }
      subst. split; [discriminate|]. intros [_ E]. apply H in E. discriminate.
    + split; [intros _; split; [exact El | now apply H] | reflexivity].
  - split; [discriminate | intros [E _]; contradiction].
Qed.

Lemma CompareDimsExact_iff model_shape dims supports_batching :
  CompareDimsExact model_shape dims supports_batching = true <->
  model_shape = if supports_batching then -1 :: dims else dims.
Proof.
  unfold CompareDimsExact. destruct supports_batching; cbv zeta.
  - destruct model_shape as [|x shape].
    + simpl. split; discriminate.
    + change (rank_ (x :: shape) =? 0)%nat with false.
      change (dims_ (x :: shape) 0) with x. simpl andb. simpl orb.
      destruct (Z.eqb_spec x (-1)) as [->|Hx]; simpl negb; cbv iota.
      * eapply iff_trans; [exact (exact_tail_spec (-1 :: shape) dims 1)|]. simpl.
        split; [intros [_ ->]; reflexivity|].
        intros [= ->]. split; [lia | reflexivity].
      * split; [discriminate | intros [= ? _]; contradiction].
  - simpl andb. cbv iota.
    eapply iff_trans; [exact (exact_tail_spec model_shape dims 0)|]. simpl.
    split; [intros [_ ->]; reflexivity | intros ->; split; [lia | reflexivity]].
Qed.

(** X13. [CompareDimsExact] holds exactly when the framework shape is
    the configured dimensions, preceded by the batch dimension [-1]
    when the model supports batching. *)
Theorem CompareDimsExact_spec model_shape dims supports_batching :
  CompareDimsExact model_shape dims supports_batching = true <->
  model_shape = if supports_batching then -1 :: dims else dims.
Proof. apply CompareDimsExact_iff. Qed.

Section WithDimsListToString.

Variable DimsListToString : DimsList -> string.

Lemma supported_tail_spec (shape : TRTISTF_Shape) (dims : DimsList) off
    (mismatch : Status) :
  IsOk mismatch = false ->
  let tail :=
    if negb (rank_ shape =? List.length dims + off)%nat then mismatch
    else
      match for_loop (List.length dims) 0
              (fun i =>
                 let model_dim := dims_ shape (i + off) in
                 if model_dim =? -1 then None
                 else if negb (model_dim =? nth i dims 0) then Some mismatch
                 else None) with
      | Some st => st
      | None => Status_Success
      end in
  (IsOk tail = true <->
   List.length shape = (List.length dims + off)%nat /\
   Forall2 compatible (skipn off shape) dims) /\
  (tail = Status_Success \/ tail = mismatch).
Proof.
  intros Hm. cbv zeta. unfold rank_.
  destruct (Nat.eqb_spec (List.length shape) (List.length dims + off)) as [El|El];
    simpl.
  - rewrite (Forall2_nth_iff compatible 0 0), length_skipn.
    destruct (for_loop _ _ _) as [st|] eqn:L.
    + apply for_loop_Some in L. destruct L as (j & Hj & Hb & _).
      unfold dims_ in Hb.
      destruct (nth (j + off) shape 0 =? -1) eqn:E1; [discriminate|].
      destruct (nth (j + off) shape 0 =? nth j dims 0) eqn:E2; [discriminate|].
      injection Hb as <-. split; [|auto]. rewrite Hm.
      split; [discriminate|]. intros (_ & _ & H).
      specialize (H j ltac:(lia)). rewrite nth_skipn, Nat.add_comm in H.
      apply Z.eqb_neq in E1, E2. destruct H; contradiction.
    + split; [|auto]. split; [|reflexivity]. intros _.
      split; [exact El|]. split; [lia|]. intros i Hi.
      rewrite for_loop_None in L. specialize (L i ltac:(lia)).
      unfold dims_ in L. rewrite nth_skipn, Nat.add_comm.
      destruct (nth (i + off) shape 0 =? -1) eqn:E1.
      * left. now apply Z.eqb_eq.
      * destruct (nth (i + off) shape 0 =? nth i dims 0) eqn:E2; [|discriminate].
        right. now apply Z.eqb_eq.
  - split; [|auto]. rewrite Hm. split; [discriminate|]. intros [E _].
    contradiction.
Qed.

(** X14. [CompareDimsSupported] returns Ok exactly when the framework
    shape is, after the batch dimension [-1] of a batching model, as
    long as the configured dimensions and agrees with them wherever it
    is not [-1]; every other shape is rejected with [INVALID_ARG]; and
    a shape that [CompareDimsExact] accepts is supported. *)
Theorem CompareDimsSupported_spec model_name tensor_name model_shape dims
    supports_batching :
  let st := CompareDimsSupported DimsListToString model_name tensor_name
              model_shape dims supports_batching in
  (IsOk st = true <->
   exists rest,
     model_shape = (if supports_batching then -1 :: rest else rest) /\
     Forall2 compatible rest dims) /\
  (IsOk st = false -> status_code st = INVALID_ARG) /\
  (CompareDimsExact model_shape dims supports_batching = true ->
   st = Status_Success).
Proof.
  cbv zeta.
  assert (Hexact : CompareDimsExact model_shape dims supports_batching = true ->
            exists rest,
              model_shape = (if supports_batching then -1 :: rest else rest) /\
              Forall2 compatible rest dims).
  { intros H. apply CompareDimsExact_iff in H. exists dims. split; [exact H|].
    clear. induction dims; constructor; [now right | assumption]. }
  assert (Hmain :
    (IsOk (CompareDimsSupported DimsListToString model_name tensor_name
             model_shape dims supports_batching) = true <->
     exists rest,
       model_shape = (if supports_batching then -1 :: rest else rest) /\
       Forall2 compatible rest dims) /\
    (IsOk (CompareDimsSupported DimsListToString model_name tensor_name
             model_shape dims supports_batching) = false ->
     status_code (CompareDimsSupported DimsListToString model_name tensor_name
             model_shape dims supports_batching) = INVALID_ARG) /\
    (IsOk (CompareDimsSupported DimsListToString model_name tensor_name
             model_shape dims supports_batching) = true ->
     CompareDimsSupported DimsListToString model_name tensor_name
             model_shape dims supports_batching = Status_Success)).
  { unfold CompareDimsSupported. destruct supports_batching; cbv zeta iota.
    - destruct model_shape as [|x shape].
      + simpl. split; [|split; [reflexivity | discriminate]].
        split; [discriminate | intros (rest & Hr & _); discriminate Hr].
      + change (rank_ (x :: shape) =? 0)%nat with false.
        change (dims_ (x :: shape) 0) with x. simpl andb. simpl orb.
        destruct (Z.eqb_spec x (-1)) as [->|Hx]; simpl negb; cbv iota.
        * match goal with
          | |- context [if negb ?c then ?m else ?e] =>
              set (t := if negb c then m else e);
              assert (Ht : (IsOk t = true <->
                            List.length (-1 :: shape)
                            = (List.length dims + 1)%nat /\
                            Forall2 compatible (skipn 1 (-1 :: shape)) dims) /\
                           (t = Status_Success \/ t = m))
                by exact (supported_tail_spec (-1 :: shape) dims 1 m eq_refl)
          end.
          destruct Ht as [H1 H2]. simpl skipn in H1.
          split; [|split].
          -- eapply iff_trans; [exact H1|]. split.
             ++ intros [_ H]. now exists shape.
             ++ intros (rest & [= ->] & H). split; [|exact H].
                apply Forall2_length in H. simpl. lia.
          -- intros Hf. destruct H2 as [H2 | H2]; rewrite H2 in *;
               [discriminate | reflexivity].
          -- intros Ht. destruct H2 as [H2 | H2]; rewrite H2 in *;
               [reflexivity | discriminate].
        * split; [|split; [reflexivity | discriminate]].
          split; [discriminate |]. intros (rest & [= ? _] & _). contradiction.
    - simpl andb. cbv iota.
      match goal with
      | |- context [if negb ?c then ?m else ?e] =>
          set (t := if negb c then m else e);
          assert (Ht : (IsOk t = true <->
                        List.length model_shape = (List.length dims + 0)%nat /\
                        Forall2 compatible (skipn 0 model_shape) dims) /\
                       (t = Status_Success \/ t = m))
            by exact (supported_tail_spec model_shape dims 0 m eq_refl)
      end.
      destruct Ht as [H1 H2]. simpl skipn in H1.
      split; [|split].
      + eapply iff_trans; [exact H1|]. split.
        * intros [_ H]. now exists model_shape.
        * intros (rest & -> & H). split; [|exact H].
          apply Forall2_length in H. lia.
      + intros Hf. destruct H2 as [H2 | H2]; rewrite H2 in *;
          [discriminate | reflexivity].
      + intros Ht. destruct H2 as [H2 | H2]; rewrite H2 in *;
          [reflexivity | discriminate]. }
  destruct Hmain as (H1 & H2 & H3). split; [exact H1|]. split; [exact H2|].
  intros Hex. apply H3, H1, Hexact, Hex.
Qed.

End WithDimsListToString.

Lemma joined_concat l : joined true l = String.concat "," l.
Proof.
  destruct l as [|x l]; [reflexivity|]. simpl. revert x.
  induction l as [|y l IH]; intros x; simpl.
  - now rewrite string_app_nil_r.
  - f_equal. f_equal. apply IH.
Qed.

Lemma skipn_nth_cons {A} (l : list A) idx (d : A) :
  (idx < List.length l)%nat ->
  skipn idx l = nth idx l d :: skipn (S idx) l.
Proof.
  revert idx. induction l as [|x l IH]; intros [|idx] H; simpl in *;
    try lia; auto. apply IH. lia.
Qed.

Lemma every_other_skipn {A} (l : list A) idx (d : A) :
  (idx < List.length l)%nat ->
  every_other (skipn idx l) = nth idx l d :: every_other (skipn (S (S idx)) l).
Proof.
  intros H. rewrite (skipn_nth_cons l idx d H).
  set (r := skipn (S idx) l).
  change (every_other (nth idx l d :: r))
    with (nth idx l d :: match r with
                         | [] => []
                         | _ :: l'' => every_other l''
                         end).
  f_equal.
  assert (E : skipn (S (S idx)) l = skipn 1 r)
    by (unfold r; now rewrite skipn_skipn).
  rewrite E. now destruct r.
Qed.

Lemma ShapeToString_loop_spec shape start_idx : forall fuel idx str,
  (start_idx <= idx)%nat ->
  (List.length shape <= idx + 2 * fuel)%nat ->
  ShapeToString_loop fuel shape start_idx idx str
  = str ++ joined (idx =? start_idx)%nat
             (map to_string (every_other (skipn idx shape))).
Proof.
  induction fuel as [|fuel IH]; intros idx str Hs Hf; simpl.
  - rewrite skipn_all2 by lia. simpl. now rewrite string_app_nil_r.
  - unfold rank_. destruct (Nat.ltb_spec idx (List.length shape)) as [Hlt|Hge].
    + rewrite (every_other_skipn shape idx 0 Hlt). simpl.
      rewrite IH by lia.
      replace (S (S idx) =? start_idx)%nat with false
        by (symmetry; apply Nat.eqb_neq; lia).
      replace (start_idx <=? idx)%nat with true
        by (symmetry; apply Nat.leb_le; lia).
      unfold dims_.
      destruct (Nat.eqb_spec idx start_idx) as [->|Hne].
      * rewrite Nat.ltb_irrefl. simpl. now rewrite string_app_assoc.
      * replace (start_idx <? idx)%nat with true
          by (symmetry; apply Nat.ltb_lt; lia).
        now rewrite !string_app_assoc.
    + rewrite skipn_all2 by lia. simpl. now rewrite string_app_nil_r.
Qed.

(** X15. [ShapeToString] prints, between brackets and separated by
    commas, the dimensions at [start_idx], [start_idx + 2],
    [start_idx + 4], ...: every second dimension is left out. *)
Theorem ShapeToString_every_other shape start_idx :
  ShapeToString shape start_idx
  = "[" ++ String.concat ","
             (map to_string (every_other (skipn start_idx shape))) ++ "]".
Proof.
  unfold ShapeToString, rank_.
  rewrite ShapeToString_loop_spec by lia.
  rewrite Nat.eqb_refl, joined_concat. now rewrite string_app_assoc.
Qed.

End TfUtilsFacts.

Module PlanUtilsFacts.

Import PlanUtils.

(** X16. For the TensorRT types the conversion names, converting to a
    [DataType] and back gives the type again, with the flag set; a
    [DataType] that converts with the flag set is the conversion of the
    TensorRT type it gives; and a [DataType] that converts with the
    flag unset gives [kFLOAT] and is the conversion of none of them. *)
Theorem trt_type_round_trip :
  (forall trt_type,
     ConvertDataTypeToTrtType (ConvertTrtTypeToDataType trt_type)
     = (true, trt_type)) /\
  (forall dtype trt_type,
     ConvertDataTypeToTrtType dtype = (true, trt_type) ->
     ConvertTrtTypeToDataType trt_type = dtype) /\
  (forall dtype,
     fst (ConvertDataTypeToTrtType dtype) = false ->
     ConvertDataTypeToTrtType dtype = (false, kFLOAT) /\
     forall trt_type, ConvertTrtTypeToDataType trt_type <> dtype).
Proof.
  split; [|split].
  - now destruct trt_type.
  - intros dtype trt_type. destruct dtype; simpl; intros [= <-]; reflexivity.
  - intros dtype. destruct dtype; simpl; try discriminate; intros _;
      (split; [reflexivity|]); intros []; discriminate.
Qed.

Lemma CompareDims_iff model_dims dims :
  (Z.to_nat (nbDims model_dims) <= List.length (d model_dims))%nat ->
  (CompareDims model_dims dims = true <->
   nbDims model_dims = Z.of_nat (List.length dims) /\
   firstn (List.length dims) (d model_dims) = dims).
Proof.
  intros Hlen. unfold CompareDims.
  destruct (Z.eqb_spec (nbDims model_dims) (Z.of_nat (List.length dims)))
    as [E|E]; simpl.
  - rewrite E, Nat2Z.id in *.
    destruct (for_loop _ _ _) as [r|] eqn:L.
    + apply for_loop_Some in L. destruct L as (j & Hj & Hb & _).
      unfold d_at in Hb.
      destruct (nth j (d model_dims) 0 =? nth j dims 0) eqn:Ej; [discriminate|].
      injection Hb as <-. split; [discriminate|]. intros [_ H]. exfalso.
      apply Z.eqb_neq in Ej. apply Ej.
      rewrite <- (nth_firstn_lt (d model_dims) (List.length dims) j 0) by lia.
      now rewrite H.
    + split; [|reflexivity]. intros _. split; [reflexivity|].
      rewrite for_loop_None in L.
      apply (nth_ext _ _ 0 0).
      * rewrite length_firstn. lia.
      * intros n Hn. rewrite length_firstn in Hn.
        rewrite nth_firstn_lt by lia.
        specialize (L n ltac:(lia)). unfold d_at in L.
        destruct (nth n (d model_dims) 0 =? nth n dims 0) eqn:En;
          [now apply Z.eqb_eq | discriminate].
  - split; [discriminate | intros [H _]; contradiction].
Qed.

(** X17. For [Dims] whose array holds its [nbDims] entries,
    [CompareDims] holds exactly when [nbDims] is the number of
    configured dimensions and the first [nbDims] entries are the
    configured dimensions. *)
Theorem CompareDims_spec model_dims dims :
  (Z.to_nat (nbDims model_dims) <= List.length (d model_dims))%nat ->
  (CompareDims model_dims dims = true <->
   nbDims model_dims = Z.of_nat (List.length dims) /\
   firstn (List.length dims) (d model_dims) = dims).
Proof. apply CompareDims_iff. Qed.

Lemma DimsToDimVec_loop_spec model_dims : forall count i acc,
  DimsToDimVec_loop count i model_dims acc
  = (acc ++ map (d_at model_dims) (seq i count))%list.
Proof.
  induction count as [|count IH]; intros i acc; simpl.
  - now rewrite app_nil_r.
  - now rewrite IH, <- app_assoc.
Qed.

Lemma DimsToDimVec_spec model_dims old :
  (Z.to_nat (nbDims model_dims) <= List.length (d model_dims))%nat ->
  DimsToDimVec model_dims old
  = firstn (Z.to_nat (nbDims model_dims)) (d model_dims).
Proof.
  intros Hlen. unfold DimsToDimVec. rewrite DimsToDimVec_loop_spec. simpl.
  apply (nth_ext _ _ 0 0).
  - rewrite length_map, length_seq, length_firstn. lia.
  - intros n Hn. rewrite length_map, length_seq in Hn.
    rewrite nth_firstn_lt by lia.
    rewrite (nth_indep _ 0 (d_at model_dims 0))
      by (rewrite length_map, length_seq; lia).
    rewrite map_nth, seq_nth by lia. reflexivity.
Qed.

Lemma length_store l i v : List.length (store l i v) = List.length l.
Proof.
  revert i. induction l as [|x l IH]; intros [|i]; simpl; auto.
Qed.

Lemma nth_store l i v j :
  (i < List.length l)%nat ->
  nth j (store l i v) 0 = if (j =? i)%nat then v else nth j l 0.
Proof.
  revert i j. induction l as [|x l IH]; intros [|i] [|j] H; simpl in *;
    try lia; auto. apply IH. lia.
Qed.

Lemma DimVecToDims_loop_spec dim_vec : forall count i arr,
  (i + count <= List.length arr)%nat ->
  List.length (DimVecToDims_loop count i dim_vec arr) = List.length arr /\
  forall j,
    nth j (DimVecToDims_loop count i dim_vec arr) 0
    = if ((i <=? j) && (j <? i + count))%nat then to_int (nth j dim_vec 0)
      else nth j arr 0.
Proof.
  induction count as [|count IH]; intros i arr H; simpl.
  - split; [reflexivity|]. intros j.
    destruct (i <=? j)%nat eqn:E1; simpl; auto.
    replace (j <? i + 0)%nat with false; auto.
    symmetry. apply Nat.ltb_ge. apply Nat.leb_le in E1. lia.
  - destruct (IH (S i) (store arr i (to_int (nth i dim_vec 0))))
      as [H1 H2]; [rewrite length_store; lia|].
    split; [now rewrite H1, length_store|]. intros j. rewrite H2.
    rewrite nth_store by lia.
    destruct (Nat.leb_spec (S i) j), (Nat.leb_spec i j),
      (Nat.ltb_spec j (S i + count)), (Nat.ltb_spec j (i + S count)),
      (Nat.eqb_spec j i); simpl; subst; try lia; reflexivity.
Qed.

Lemma to_int_small z : - 2 ^ 31 <= z < 2 ^ 31 -> to_int z = z.
Proof. intros H. unfold to_int. rewrite Z.mod_small; lia. Qed.

Section WithConstants.

Variable MAX_DIMS : Z.
Variable WILDCARD_DIM : Z.
Variable DimsListToString : DimsList -> string.
Variable DimsListToString_vec : list Z -> string.

(** X18. With an array of [MAX_DIMS] entries: [DimVecToDims] refuses
    a vector longer than [MAX_DIMS] and leaves [*dims] alone; otherwise
    it succeeds, sets [nbDims] to the vector's size, stores each entry
    converted to [int] and keeps the entries past the size; so
    [DimsToDimVec] afterwards gives the converted vector, and for a
    vector of values that fit an [int] it gives the vector itself,
    which [CompareDims] then accepts. *)
Theorem DimVecToDims_round_trip dim_vec dims :
  Z.of_nat (List.length (d dims)) = MAX_DIMS ->
  (Z.of_nat (List.length dim_vec) > MAX_DIMS ->
   DimVecToDims MAX_DIMS dim_vec dims = (false, dims)) /\
  (Z.of_nat (List.length dim_vec) <= MAX_DIMS ->
   let (ok, dims') := DimVecToDims MAX_DIMS dim_vec dims in
   ok = true /\
   nbDims dims' = Z.of_nat (List.length dim_vec) /\
   List.length (d dims') = List.length (d dims) /\
   skipn (List.length dim_vec) (d dims')
   = skipn (List.length dim_vec) (d dims) /\
   forall old, DimsToDimVec dims' old = map to_int dim_vec) /\
  (Z.of_nat (List.length dim_vec) <= MAX_DIMS ->
   Forall (fun x => - 2 ^ 31 <= x < 2 ^ 31) dim_vec ->
   forall old,
     DimsToDimVec (snd (DimVecToDims MAX_DIMS dim_vec dims)) old = dim_vec /\
     CompareDims (snd (DimVecToDims MAX_DIMS dim_vec dims)) dim_vec = true).
Proof.
  intros Harr.
  assert (Hfit : Z.of_nat (List.length dim_vec) <= MAX_DIMS ->
     let (ok, dims') := DimVecToDims MAX_DIMS dim_vec dims in
     ok = true /\
     nbDims dims' = Z.of_nat (List.length dim_vec) /\
     List.length (d dims') = List.length (d dims) /\
     skipn (List.length dim_vec) (d dims')
     = skipn (List.length dim_vec) (d dims) /\
     forall old, DimsToDimVec dims' old = map to_int dim_vec).
  { intros Hle. unfold DimVecToDims.
    destruct (Z.gtb_spec (Z.of_nat (List.length dim_vec)) MAX_DIMS); [lia|].
    rewrite Nat2Z.id.
    destruct (DimVecToDims_loop_spec dim_vec (List.length dim_vec) 0 (d dims))
      as [H1 H2]; [lia|].
    split; [reflexivity|]. split; [reflexivity|]. simpl d.
    split; [exact H1|]. split.
    - apply (nth_ext _ _ 0 0).
      + rewrite !length_skipn. lia.
      + intros n _. rewrite !nth_skipn, H2.
        destruct (Nat.leb_spec 0 (List.length dim_vec + n)),
          (Nat.ltb_spec (List.length dim_vec + n) (0 + List.length dim_vec));
          simpl; try lia; reflexivity.
    - intros old. rewrite DimsToDimVec_spec; simpl; rewrite ?Nat2Z.id; [|lia].
      apply (nth_ext _ _ 0 0).
      + rewrite length_firstn, length_map. lia.
      + intros n Hn. rewrite length_firstn in Hn.
        rewrite nth_firstn_lt by lia. rewrite H2.
        destruct (Nat.leb_spec 0 n), (Nat.ltb_spec n (0 + List.length dim_vec));
          simpl; try lia.
        rewrite (nth_indep (map to_int dim_vec) 0 (to_int 0))
          by (rewrite length_map; lia).
        now rewrite map_nth. }
  split; [|split; [exact Hfit|]].
  - intros Hgt. unfold DimVecToDims.
    destruct (Z.gtb_spec (Z.of_nat (List.length dim_vec)) MAX_DIMS);
      [reflexivity | lia].
  - intros Hle Hrange old. specialize (Hfit Hle).
    destruct (DimVecToDims MAX_DIMS dim_vec dims) as [ok dims'].
    destruct Hfit as (_ & Hnb & Hlen & _ & Hvec). simpl.
    assert (Hmap : map to_int dim_vec = dim_vec).
    { clear - Hrange. induction Hrange; simpl; [reflexivity|].
      now rewrite to_int_small, IHHrange. }
    split; [now rewrite Hvec|].
    apply CompareDims_iff; [rewrite Hnb, Nat2Z.id; lia|].
    split; [exact Hnb|].
    pose proof (DimsToDimVec_spec dims' []) as Hs.
    rewrite Hnb, Nat2Z.id in Hs. rewrite <- Hs by lia. now rewrite Hvec.
Qed.

(** X22. For [Dims] whose array holds its [nbDims] entries,
    [ContainsWildcard] holds exactly when [WILDCARD_DIM] is among the
    first [nbDims] entries. *)
Theorem ContainsWildcard_spec dims :
  (Z.to_nat (nbDims dims) <= List.length (d dims))%nat ->
  (ContainsWildcard WILDCARD_DIM dims = true <->
   In WILDCARD_DIM (firstn (Z.to_nat (nbDims dims)) (d dims))).
Proof.
  intros Hlen. unfold ContainsWildcard.
  destruct (for_loop _ _ _) as [r|] eqn:L.
  - apply for_loop_Some in L. destruct L as (j & Hj & Hb & _).
    unfold d_at in Hb.
    destruct (Z.eqb_spec (nth j (d dims) 0) WILDCARD_DIM) as [E|E];
      [|discriminate].
    injection Hb as <-. split; [intros _ | reflexivity].
    rewrite <- E, <- (nth_firstn_lt (d dims) (Z.to_nat (nbDims dims)) j 0) by lia.
    apply nth_In. rewrite length_firstn. lia.
  - split; [discriminate|]. intros Hin. exfalso.
    apply (In_nth _ _ 0) in Hin. destruct Hin as (j & Hj & Hn).
    rewrite length_firstn in Hj. rewrite nth_firstn_lt in Hn by lia.
    rewrite for_loop_None in L. specialize (L j ltac:(lia)).
    unfold d_at in L. rewrite Hn, Z.eqb_refl in L. discriminate.
Qed.

(** X20. [ValidateDimension] on [Dims] returns Ok exactly when the
    number of dimensions, plus one when the first dimension of the
    profile is skipped, is that of the maximum and every dimension lies
    between the profile's minimum and maximum at its position; every
    failure is [INTERNAL]. *)
Theorem ValidateDimension_spec this_dims min_dims max_dims
    (skip_first_dimension : bool) :
  let off := if skip_first_dimension then 1%nat else 0%nat in
  let st := ValidateDimension this_dims min_dims max_dims skip_first_dimension in
  (IsOk st = true <->
   nbDims this_dims + Z.of_nat off = nbDims max_dims /\
   forall i, (i < Z.to_nat (nbDims this_dims))%nat ->
             in_range min_dims max_dims off i (d_at this_dims i)) /\
  (IsOk st = false -> status_code st = INTERNAL).
Proof.
  cbv zeta. unfold ValidateDimension, in_range.
  set (off := if skip_first_dimension then 1%nat else 0%nat).
  destruct (Z.eqb_spec (nbDims this_dims + Z.of_nat off) (nbDims max_dims))
    as [E|E]; simpl.
  - destruct (for_loop _ _ _) as [st|] eqn:L.
    + apply for_loop_Some in L. destruct L as (j & Hj & Hb & _).
      destruct (Z.ltb_spec (d_at this_dims j) (d_at min_dims (j + off))) as [Hl|Hl];
        destruct (Z.gtb_spec (d_at this_dims j) (d_at max_dims (j + off))) as [Hg|Hg];
        simpl in Hb; try discriminate; injection Hb as <-;
        (split; [|reflexivity]); (split; [discriminate|]);
        intros [_ Hall]; specialize (Hall j ltac:(lia)); lia.
    + split; [|discriminate]. split; [|reflexivity]. intros _.
      split; [exact E|]. intros i Hi.
      rewrite for_loop_None in L. specialize (L i ltac:(lia)).
      destruct (Z.ltb_spec (d_at this_dims i) (d_at min_dims (i + off))) as [Hl|Hl];
        destruct (Z.gtb_spec (d_at this_dims i) (d_at max_dims (i + off))) as [Hg|Hg];
        simpl in L; try discriminate; lia.
  - split; [|reflexivity]. split; [discriminate | intros [H _]; contradiction].
Qed.

(** X21. [ValidateDimension] on a [DimsList] returns Ok exactly when
    the number of dimensions fits and every dimension is [-1] or lies
    in the profile's range; every failure is [INTERNAL]; and on a list
    without [-1] it returns the very status, message included, that
    the overload on [Dims] returns for the same dimensions. *)
Theorem ValidateDimension_list_spec this_dims min_dims max_dims
    (skip_first_dimension : bool) :
  let off := if skip_first_dimension then 1%nat else 0%nat in
  let st :=
    ValidateDimension_list this_dims min_dims max_dims skip_first_dimension in
  (IsOk st = true <->
   Z.of_nat (List.length this_dims + off) = nbDims max_dims /\
   forall i, (i < List.length this_dims)%nat ->
             nth i this_dims 0 = -1 \/
             in_range min_dims max_dims off i (nth i this_dims 0)) /\
  (IsOk st = false -> status_code st = INTERNAL) /\
  (Forall (fun x => x <> -1) this_dims ->
   st = ValidateDimension
          (mkDims (Z.of_nat (List.length this_dims)) this_dims)
          min_dims max_dims skip_first_dimension).
Proof.
  cbv zeta. unfold ValidateDimension_list, ValidateDimension, in_range.
  set (off := if skip_first_dimension then 1%nat else 0%nat).
  simpl nbDims. rewrite Nat2Z.id, Nat2Z.inj_add.
  destruct (Z.eqb_spec (Z.of_nat (List.length this_dims) + Z.of_nat off)
              (nbDims max_dims)) as [E|E]; simpl.
  - split; [|split].
    + destruct (for_loop _ _ _) as [st|] eqn:L.
      * apply for_loop_Some in L. destruct L as (j & Hj & Hb & _).
        destruct (Z.eqb_spec (nth j this_dims 0) (-1)); [discriminate|].
        destruct (Z.ltb_spec (nth j this_dims 0) (d_at min_dims (j + off))) as [Hl|Hl];
          destruct (Z.gtb_spec (nth j this_dims 0) (d_at max_dims (j + off))) as [Hg|Hg];
          simpl in Hb; try discriminate; injection Hb as <-;
          (split; [discriminate|]);
          intros [_ Hall]; specialize (Hall j ltac:(lia)); lia.
      * split; [|reflexivity]. intros _.
        split; [exact E|]. intros i Hi.
        rewrite for_loop_None in L. specialize (L i ltac:(lia)).
        destruct (Z.eqb_spec (nth i this_dims 0) (-1)); [now left|]. right.
        destruct (Z.ltb_spec (nth i this_dims 0) (d_at min_dims (i + off))) as [Hl|Hl];
          destruct (Z.gtb_spec (nth i this_dims 0) (d_at max_dims (i + off))) as [Hg|Hg];
          simpl in L; try discriminate; lia.
    + destruct (for_loop _ _ _) as [st|] eqn:L; [|discriminate].
      apply for_loop_Some in L. destruct L as (j & Hj & Hb & _).
      destruct (nth j this_dims 0 =? -1); [discriminate|].
      destruct (_ || _); [|discriminate]. injection Hb as <-. reflexivity.
    + intros Hall.
      match goal with
      | |- match ?a with _ => _ end = match ?b with _ => _ end =>
          replace a with b; [reflexivity|]
      end.
      symmetry. apply for_loop_ext. intros j Hj.
      change (d_at (mkDims (Z.of_nat (List.length this_dims)) this_dims) j)
        with (nth j this_dims 0).
      destruct (Z.eqb_spec (nth j this_dims 0) (-1)) as [Ej|Ej];
        [|reflexivity].
      exfalso. rewrite Forall_forall in Hall.
      apply (Hall (nth j this_dims 0)); [|exact Ej]. apply nth_In. lia.
  - split; [|split; [reflexivity | reflexivity]].
    split; [discriminate | intros [H _]; lia].
Qed.

(** X23. [ValidateControlDimsDynamic] returns Ok exactly when the
    first entry of [d] is [-1] for a batching model and [1] otherwise
    and every further dimension below [nbDims] is [1]; the first entry
    is read whatever [nbDims] is; every failure is [INTERNAL]. *)
Theorem ValidateControlDimsDynamic_spec dims (support_batching : bool) :
  let st := ValidateControlDimsDynamic dims support_batching in
  (IsOk st = true <->
   d_at dims 0 = (if support_batching then -1 else 1) /\
   forall i, (1 <= i < Z.to_nat (nbDims dims))%nat -> d_at dims i = 1) /\
  (IsOk st = false -> status_code st = INTERNAL).
Proof.
  cbv zeta. unfold ValidateControlDimsDynamic.
  destruct (Z.eqb_spec (d_at dims 0) (if support_batching then -1 else 1))
    as [E|E]; simpl.
  - destruct (for_loop _ _ _) as [st|] eqn:L.
    + apply for_loop_Some in L. destruct L as (j & Hj & Hb & _).
      destruct (Z.eqb_spec (d_at dims j) 1); [discriminate|].
      injection Hb as <-. split; [|reflexivity]. split; [discriminate|].
      intros [_ H]. specialize (H j ltac:(lia)). contradiction.
    + split; [|discriminate]. split; [|reflexivity]. intros _.
      split; [exact E|]. intros i Hi.
      rewrite for_loop_None in L. specialize (L i ltac:(lia)).
      destruct (Z.eqb_spec (d_at dims i) 1); [assumption | discriminate].
  - split; [|reflexivity]. split; [discriminate | intros [H _]; contradiction].
Qed.

Lemma MaximumDims_loop_spec max_profile_dims dims off failure :
  forall count i acc,
    let '(r, out) := MaximumDims_loop WILDCARD_DIM count i max_profile_dims
                       dims off failure acc in
    exists extra,
      out = (acc ++ extra)%list /\
      (forall k, (k < List.length extra)%nat ->
         nth k extra 0
         = (if nth (i + k) dims 0 =? WILDCARD_DIM
            then d_at max_profile_dims (i + k + off)
            else nth (i + k) dims 0) /\
         nth k extra 0 <= d_at max_profile_dims (i + k + off)) /\
      match r with
      | None => List.length extra = count
      | Some st =>
          st = failure /\ (List.length extra < count)%nat /\
          nth (i + List.length extra) dims 0 <> WILDCARD_DIM /\
          nth (i + List.length extra) dims 0
          > d_at max_profile_dims (i + List.length extra + off)
      end.
Proof.
  induction count as [|count IH]; intros i acc; simpl.
  - exists []. rewrite app_nil_r. split; [reflexivity|].
    split; [intros k Hk; simpl in Hk; lia | reflexivity].
  - assert (Hcons : forall x,
      x = (if nth i dims 0 =? WILDCARD_DIM
           then d_at max_profile_dims (i + off) else nth i dims 0) ->
      x <= d_at max_profile_dims (i + off) ->
      let '(r, out) := MaximumDims_loop WILDCARD_DIM count (S i)
                         max_profile_dims dims off failure (acc ++ [x]) in
      exists extra,
        out = (acc ++ extra)%list /\
        (forall k, (k < List.length extra)%nat ->
           nth k extra 0
           = (if nth (i + k) dims 0 =? WILDCARD_DIM
              then d_at max_profile_dims (i + k + off)
              else nth (i + k) dims 0) /\
           nth k extra 0 <= d_at max_profile_dims (i + k + off)) /\
        match r with
        | None => List.length extra = S count
        | Some st =>
            st = failure /\ (List.length extra < S count)%nat /\
            nth (i + List.length extra) dims 0 <> WILDCARD_DIM /\
            nth (i + List.length extra) dims 0
            > d_at max_profile_dims (i + List.length extra + off)
        end).
    { intros x Hx Hle. specialize (IH (S i) (acc ++ [x])%list).
      destruct (MaximumDims_loop _ _ _ _ _ _ _ _) as [r out].
      destruct IH as (extra & Hout & Hk & Hr).
      exists (x :: extra). split; [now rewrite Hout, <- app_assoc|]. split.
      - intros [|k] Hlt; simpl.
        + rewrite !Nat.add_0_r. auto.
        + replace (i + S k)%nat with (S i + k)%nat by lia.
          apply Hk. simpl in Hlt. lia.
      - destruct r as [st|]; simpl.
        + destruct Hr as (H1 & H2 & H3 & H4).
          replace (i + S (List.length extra))%nat
            with (S i + List.length extra)%nat by lia.
          repeat split; auto. lia.
        + now rewrite Hr. }
    destruct (Z.eqb_spec (nth i dims 0) WILDCARD_DIM) as [E|E].
    + apply Hcons; [|lia].
      destruct (Z.eqb_spec (nth i dims 0) WILDCARD_DIM);
        [reflexivity | contradiction].
    + destruct (Z.leb_spec (nth i dims 0) (d_at max_profile_dims (i + off))).
      * apply Hcons; [|lia].
        destruct (Z.eqb_spec (nth i dims 0) WILDCARD_DIM); [contradiction|].
        reflexivity.
      * exists []. rewrite app_nil_r. simpl. rewrite !Nat.add_0_r.
        split; [reflexivity|]. split; [intros k Hk; lia|].
        repeat split; auto; lia.
Qed.

(** X19. When [MaximumDims] succeeds, the profile has as many
    dimensions as the configuration (plus the batch dimension) and the
    vector has gained the profile's batch dimension, if any, and one
    value per configured dimension: the profile's maximum for
    [WILDCARD_DIM], the configured value otherwise, never more than the
    profile's maximum.  When it fails the status is [INVALID_ARG] and
    the vector keeps what was appended before the failure: its old
    content is a prefix of the new. *)
Theorem MaximumDims_spec max_profile_dims dims max_dims
    (support_batching : bool) :
  let off := if support_batching then 1%nat else 0%nat in
  let '(st, out) := MaximumDims WILDCARD_DIM DimsListToString
                      DimsListToString_vec max_profile_dims dims max_dims
                      support_batching in
  (IsOk st = true ->
   nbDims max_profile_dims = Z.of_nat (List.length dims + off) /\
   exists res,
     out = (max_dims
            ++ (if support_batching then [d_at max_profile_dims 0] else [])
            ++ res)%list /\
     List.length res = List.length dims /\
     forall i, (i < List.length dims)%nat ->
       nth i res 0
       = (if nth i dims 0 =? WILDCARD_DIM
          then d_at max_profile_dims (i + off) else nth i dims 0) /\
       nth i res 0 <= d_at max_profile_dims (i + off)) /\
  (IsOk st = false ->
   status_code st = INVALID_ARG /\
   exists extra, out = (max_dims ++ extra)%list).
Proof.
  cbv zeta. unfold MaximumDims.
  set (off := if support_batching then 1%nat else 0%nat).
  set (failure := mkStatus INVALID_ARG _).
  destruct (Z.eqb_spec (nbDims max_profile_dims)
              (Z.of_nat (List.length dims + off))) as [E|E]; simpl.
  - set (acc := if support_batching then _ else _).
    pose proof (MaximumDims_loop_spec max_profile_dims dims off failure
                  (List.length dims) 0 acc) as H.
    destruct (MaximumDims_loop _ _ _ _ _ _ _ _) as [[st|] out].
    + destruct H as (extra & Hout & _ & -> & _). split; [discriminate|].
      intros _. split; [reflexivity|]. subst out acc.
      destruct support_batching; rewrite <- ?app_assoc; eauto.
    + destruct H as (extra & Hout & Hk & Hlen). split; [|discriminate].
      intros _. split; [exact E|]. exists extra. split; [|split].
      * subst out acc. destruct support_batching;
          rewrite <- ?app_assoc; reflexivity.
      * exact Hlen.
      * intros i Hi. apply (Hk i). lia.
  - split; [discriminate|]. intros _. split; [reflexivity|].
    exists []. now rewrite app_nil_r.
Qed.

Lemma plan_supported_tail_spec (model_dims : Dims) (dims : DimsList) off
    (mismatch : Status) :
  IsOk mismatch = false ->
  let tail :=
    if negb (nbDims model_dims =? Z.of_nat (List.length dims + off))
    then mismatch
    else
      match for_loop (List.length dims) 0
              (fun i =>
                 let model_dim := d_at model_dims (i + off) in
                 if model_dim =? -1 then None
                 else if negb (model_dim =? nth i dims 0) then Some mismatch
                 else None) with
      | Some st => st
      | None => Status_Success
      end in
  (IsOk tail = true <->
   nbDims model_dims = Z.of_nat (List.length dims + off) /\
   forall i, (i < List.length dims)%nat ->
             compatible (d_at model_dims (i + off)) (nth i dims 0)) /\
  (tail = Status_Success \/ tail = mismatch).
Proof.
  intros Hm. cbv zeta.
  destruct (Z.eqb_spec (nbDims model_dims) (Z.of_nat (List.length dims + off)))
    as [El|El]; simpl.
  - destruct (for_loop _ _ _) as [st|] eqn:L.
    + apply for_loop_Some in L. destruct L as (j & Hj & Hb & _).
      destruct (Z.eqb_spec (d_at model_dims (j + off)) (-1)) as [E1|E1];
        [discriminate|].
      destruct (Z.eqb_spec (d_at model_dims (j + off)) (nth j dims 0))
        as [E2|E2]; [discriminate|].
      injection Hb as <-. split; [|auto]. rewrite Hm.
      split; [discriminate|]. intros (_ & Hall).
      destruct (Hall j ltac:(lia)); contradiction.
    + split; [|auto]. split; [|reflexivity]. intros _.
      split; [exact El|]. intros i Hi.
      rewrite for_loop_None in L. specialize (L i ltac:(lia)). cbv zeta in L.
      destruct (Z.eqb_spec (d_at model_dims (i + off)) (-1)) as [E1|E1];
        [now left|].
      destruct (Z.eqb_spec (d_at model_dims (i + off)) (nth i dims 0))
        as [E2|E2]; [now right | discriminate].
  - split; [|auto]. rewrite Hm. split; [discriminate|]. intros [E _].
    contradiction.
Qed.

(** X24. [CompareDimsSupported] of the TensorRT backend returns Ok
    exactly when the binding has as many dimensions as the
    configuration, after a leading [-1] when the model batches and the
    binding is dynamic, and each of them is [-1] or the configured
    value; every failure is [INVALID_ARG]; and without that leading
    dimension, dimensions that [CompareDims] accepts are supported. *)
Theorem plan_CompareDimsSupported_spec model_name binding_name model_dims dims
    (supports_batching is_dynamic : bool) :
  let off := if supports_batching && is_dynamic then 1%nat else 0%nat in
  let st := CompareDimsSupported DimsListToString DimsListToString_vec
              model_name binding_name model_dims dims supports_batching
              is_dynamic in
  (IsOk st = true <->
   nbDims model_dims = Z.of_nat (List.length dims + off) /\
   (off = 1%nat -> d_at model_dims 0 = -1) /\
   forall i, (i < List.length dims)%nat ->
             compatible (d_at model_dims (i + off)) (nth i dims 0)) /\
  (IsOk st = false -> status_code st = INVALID_ARG) /\
  (supports_batching && is_dynamic = false ->
   CompareDims model_dims dims = true -> st = Status_Success).
Proof.
  cbv zeta. unfold CompareDimsSupported.
  destruct (supports_batching && is_dynamic) eqn:B; cbv zeta iota.
  - simpl andb.
    destruct (Z.eqb_spec (nbDims model_dims) 0) as [E0|E0]; simpl orb;
      cbv iota.
    { split; [|split; [reflexivity | discriminate]].
      split; [discriminate|]. intros (H & _). lia. }
    destruct (Z.eqb_spec (d_at model_dims 0) (-1)) as [E1|E1]; simpl negb;
      cbv iota.
    + match goal with
      | |- context [if negb ?c then ?m else ?e] =>
          set (t := if negb c then m else e);
          assert (Ht : (IsOk t = true <->
                        nbDims model_dims = Z.of_nat (List.length dims + 1) /\
                        forall i, (i < List.length dims)%nat ->
                          compatible (d_at model_dims (i + 1)) (nth i dims 0)) /\
                       (t = Status_Success \/ t = m))
            by exact (plan_supported_tail_spec model_dims dims 1 m eq_refl)
      end.
      destruct Ht as [H1 H2]. split; [|split; [|discriminate]].
      * rewrite H1. split; [intros [Ha Hb]; auto | intros (Ha & _ & Hb); auto].
      * intros Hf. destruct H2 as [H2 | H2]; rewrite H2 in *;
          [discriminate | reflexivity].
    + split; [|split; [reflexivity | discriminate]].
      split; [discriminate|]. intros (_ & H & _). now elim E1; apply H.
  - simpl andb. cbv iota.
    match goal with
    | |- context [if negb ?c then ?m else ?e] =>
        set (t := if negb c then m else e);
        assert (Ht : (IsOk t = true <->
                      nbDims model_dims = Z.of_nat (List.length dims + 0) /\
                      forall i, (i < List.length dims)%nat ->
                        compatible (d_at model_dims (i + 0)) (nth i dims 0)) /\
                     (t = Status_Success \/ t = m))
          by exact (plan_supported_tail_spec model_dims dims 0 m eq_refl)
    end.
    destruct Ht as [H1 H2]. split; [|split].
    + rewrite H1. split; [intros [Ha Hb]; repeat split; auto; discriminate
                         | intros (Ha & _ & Hb); auto].
    + intros Hf. destruct H2 as [H2 | H2]; rewrite H2 in *;
        [discriminate | reflexivity].
    + intros _ Hc.
      assert (Hok : IsOk t = true).
      { apply H1. unfold CompareDims in Hc.
        destruct (Z.eqb_spec (nbDims model_dims) (Z.of_nat (List.length dims)))
          as [E|E]; [|discriminate]. simpl in Hc.
        split; [now rewrite Nat.add_0_r|]. intros i Hi. right.
        rewrite E, Nat2Z.id in Hc.
        match type of Hc with
        | context [for_loop ?a ?b ?c] =>
            destruct (for_loop a b c) as [r|] eqn:L
        end.
        - apply for_loop_Some in L. destruct L as (j & _ & Hb & _).
          destruct (negb _) in Hb; [|discriminate]. congruence.
        - rewrite for_loop_None in L. specialize (L i ltac:(lia)).
          rewrite Nat.add_0_r.
          destruct (Z.eqb_spec (d_at model_dims i) (nth i dims 0));
            [assumption | discriminate]. }
      destruct H2 as [H2 | H2]; rewrite H2 in *; [reflexivity | discriminate].
Qed.

End WithConstants.

End PlanUtilsFacts.

(** * Instances of the further properties *)

Lemma register_then_resolve_host_instance :
  IsOk (fst (RegisterSharedMemory os_good "a" "/k" 0 16 (Create []))) = true /\
  fst (SharedMemoryAddress "a" 4 100 w_a) = (Status_Success, Some 8196).
Proof.
  split; [reflexivity|].
  destruct (register_then_resolve_host os_good "a" "/k" 0 16 (Create [])
              eq_refl) as (fd & addr & h & Ht & _ & Hr).
  change (snd (RegisterSharedMemory os_good "a" "/k" 0 16 (Create [])))
    with w_a in *.
  assert (Ha : addr = 8192) by (vm_compute in Ht; congruence).
  rewrite (Hr 4 100), Ha. reflexivity.
Defined.

Lemma register_then_resolve_device_instance :
  IsOk (fst (RegisterCudaSharedMemory os_good "g" "handle" 64 1 w_a)) = true /\
  fst (SharedMemoryAddress "g" 8 100 w_ag) = (Status_Success, Some 24584).
Proof.
  split; [reflexivity|].
  destruct (register_then_resolve_device os_good "g" "handle" 64 1 w_a eq_refl)
    as (ptr & Ht & Hr).
  change (snd (RegisterCudaSharedMemory os_good "g" "handle" 64 1 w_a))
    with w_ag in *.
  assert (Hp : ptr = 24576) by (vm_compute in Ht; congruence).
  rewrite (Hr 8 100), Hp. reflexivity.
Defined.

Lemma register_then_unregister_instance :
  shared_memory_map_
    (snd (UnregisterSharedMemory os_good true "b"
            (snd (RegisterSharedMemory os_good "b" "/k" 16 16 w_a))))
  = [("a", info_a)].
Proof.
  exact (proj1 (register_then_unregister_restores os_good true "b" "/k" 16 16
                  w_a eq_refl eq_refl)).
Defined.

Lemma unregister_postcondition_instance :
  StdMap.ok (shared_memory_map_ w_ab) /\
  StdMap.find "a" (shared_memory_map_
                     (snd (UnregisterSharedMemory os_good true "a" w_ab)))
  = None.
Proof.
  assert (Hok : StdMap.ok (shared_memory_map_ w_ab))
    by (repeat constructor).
  split; [exact Hok|].
  pose proof (unregister_postcondition os_good true "a" w_ab Hok) as H.
  destruct (UnregisterSharedMemory os_good true "a" w_ab) as [st w'] eqn:E.
  simpl. destruct H as [(_ & H & _) | (Hf & _)]; [exact H|].
  exfalso. vm_compute in E. injection E as <- _. discriminate Hf.
Defined.

Lemma other_names_resolve_alike_instance :
  "a" <> "b" /\
  fst (SharedMemoryAddress "b" 0 16
         (snd (UnregisterSharedMemory os_good true "a" w_ab)))
  = fst (SharedMemoryAddress "b" 0 16 w_ab).
Proof.
  assert (Hne : "a" <> "b") by discriminate.
  split; [exact Hne|].
  exact (proj2 (proj2 (other_names_resolve_alike os_good true "a" "b" 0 16
                         w_ab Hne))).
Defined.

Lemma status_report_instance :
  fst (fst (GetSharedMemoryStatus [] w_ag)) = Status_Success /\
  map region_name (snd (fst (GetSharedMemoryStatus [] w_ag))) = ["a"; "g"].
Proof.
  assert (Hok : StdMap.ok (shared_memory_map_ w_ag)) by (repeat constructor).
  assert (Hn : names_consistent (shared_memory_map_ w_ag)).
  { intros k r [[= <- <-] | [[= <- <-] | []]]; reflexivity. }
  pose proof (status_report_lists_every_region [] w_ag Hok Hn) as H.
  destruct (GetSharedMemoryStatus [] w_ag) as [[st report] w'].
  destruct H as (H1 & _ & entries & Hr & Hk & _). simpl.
  split; [exact H1|]. rewrite Hr. exact Hk.
Defined.

Lemma names_consistent_instance :
  StdMap.ok (shared_memory_map_ w_a) /\
  names_consistent (shared_memory_map_ w_a).
Proof.
  destruct (names_consistent_invariant os_good true) as [H0 Hstep].
  apply (Hstep (OpRegister "a" "/k" 0 16) (Create []) w_a);
    [apply H0 | reflexivity].
Defined.

Lemma manager_never_closes_instance :
  closes (trace (snd (UnregisterSharedMemory os_good true "a" w_a)))
  = closes (trace w_a).
Proof.
  exact (manager_never_closes os_good true (OpUnregister "a") w_a _ eq_refl).
Defined.

Lemma failed_open_instance :
  status_code
    (fst (RegisterSharedMemory os_good "e" EmptyString 0 16 w_a))
  = INTERNAL /\
  shared_memory_map_
    (snd (RegisterSharedMemory os_good "e" EmptyString 0 16 w_a))
  = [("a", info_a)].
Proof.
  assert (Hkey : forall k r, In (k, r) (shared_memory_map_ w_a) ->
                   shm_key_ r <> EmptyString).
  { intros k r [[= <- <-] | []]. discriminate. }
  rewrite (failed_open_registers_nothing os_good "e" EmptyString 0 16 w_a
             eq_refl Hkey eq_refl).
  split; reflexivity.
Defined.

Lemma registration_status_codes_instance :
  status_code (fst (RegisterSharedMemory os_good "a" "/k" 0 16 w_a))
  = ALREADY_EXISTS.
Proof.
  destruct (registration_status_codes os_good "a" w_a) as [H _].
  specialize (H "/k" 0 16).
  destruct (RegisterSharedMemory os_good "a" "/k" 0 16 w_a) as [st w'].
  destruct H as [[_ H] _]. apply H. discriminate.
Defined.

Lemma unregister_all_returns_instance :
  StdMap.ok (shared_memory_map_ w_ab) /\
  match UnregisterAllSharedMemory (os_sample true false true) true w_ab with
  | Returns st w' =>
      shared_memory_map_ w' = [("a", info_a); ("b", info_b)] /\
      status_code st = INTERNAL
  | _ => False
  end.
Proof.
  assert (Hok : StdMap.ok (shared_memory_map_ w_ab)) by (repeat constructor).
  split; [exact Hok|].
  destruct (unregister_all_returns_only_failures (os_sample true false true)
              true w_ab Hok) as [_ H].
  destruct (UnregisterAllSharedMemory (os_sample true false true) true w_ab)
    as [st w'| |] eqn:E; try (vm_compute in E; discriminate E).
  destruct (H st w' eq_refl) as (H1 & _ & H3 & _).
  split; [exact H1|]. rewrite H3; [reflexivity | discriminate].
Defined.

Lemma CompareDimsSupported_instance :
  TfUtils.CompareDimsSupported sample_DimsListToString "m" "t"
    [-1; -1; 224] [3; 224] true = Status_Success /\
  status_code
    (TfUtils.CompareDimsSupported sample_DimsListToString "m" "t"
       [-1; 4; 224] [3; 224] true) = INVALID_ARG.
Proof.
  split.
  - destruct (TfUtilsFacts.CompareDimsSupported_spec sample_DimsListToString
                "m" "t" [-1; -1; 224] [3; 224] true) as (H & _ & _).
    assert (Hok : IsOk (TfUtils.CompareDimsSupported sample_DimsListToString
                          "m" "t" [-1; -1; 224] [3; 224] true) = true).
    { apply H. exists [-1; 224]. split; [reflexivity|].
      constructor; [now left|]. constructor; [now right | constructor]. }
    revert Hok. vm_compute. intros _. reflexivity.
  - destruct (TfUtilsFacts.CompareDimsSupported_spec sample_DimsListToString
                "m" "t" [-1; 4; 224] [3; 224] true) as (_ & H & _).
    apply H. reflexivity.
Defined.

Lemma trt_type_round_trip_instance :
  PlanUtils.ConvertDataTypeToTrtType TYPE_FP16 = (true, PlanUtils.kHALF) /\
  PlanUtils.ConvertTrtTypeToDataType PlanUtils.kHALF = TYPE_FP16.
Proof.
  destruct PlanUtilsFacts.trt_type_round_trip as (_ & H & _).
  split; [reflexivity|]. apply H. reflexivity.
Defined.

Lemma CompareDims_instance :
  PlanUtils.CompareDims (dims_of [3; 224; 224]) [3; 224; 224] = true.
Proof.
  apply PlanUtilsFacts.CompareDims_spec; [simpl; lia|].
  split; reflexivity.
Defined.

Lemma DimVecToDims_round_trip_instance :
  PlanUtils.DimsToDimVec
    (snd (PlanUtils.DimVecToDims 8 [3; 224; 224] (dims_of []))) [7]
  = [3; 224; 224] /\
  PlanUtils.DimVecToDims 8 [1; 2; 3; 4; 5; 6; 7; 8; 9] (dims_of [])
  = (false, dims_of []).
Proof.
  destruct (PlanUtilsFacts.DimVecToDims_round_trip 8 [3; 224; 224] (dims_of [])
              eq_refl) as (_ & _ & H).
  destruct (PlanUtilsFacts.DimVecToDims_round_trip 8
              [1; 2; 3; 4; 5; 6; 7; 8; 9] (dims_of []) eq_refl) as (H' & _).
  split.
  - apply H; [simpl; lia|]. repeat constructor; lia.
  - apply H'. simpl. lia.
Defined.

Lemma MaximumDims_instance :
  snd (PlanUtils.MaximumDims (-1) sample_DimsListToString
         sample_DimsListToString (dims_of [8; 3; 512]) [3; -1] [] true)
  = [8; 3; 512] /\
  status_code
    (fst (PlanUtils.MaximumDims (-1) sample_DimsListToString
            sample_DimsListToString (dims_of [8; 3; 512]) [3; 1024] [] true))
  = INVALID_ARG.
Proof.
  split; [reflexivity|].
  pose proof (PlanUtilsFacts.MaximumDims_spec (-1) sample_DimsListToString
                sample_DimsListToString (dims_of [8; 3; 512]) [3; 1024] []
                true) as H.
  destruct (PlanUtils.MaximumDims _ _ _ _ _ _ _) as [st out] eqn:E.
  destruct H as [_ H]. simpl. apply H.
  vm_compute in E. injection E as <- _. reflexivity.
Defined.

Lemma ValidateDimension_instance :
  PlanUtils.ValidateDimension (dims_of [3; 224]) (dims_of [1; 1; 1])
    (dims_of [8; 3; 512]) true = Status_Success.
Proof.
  destruct (PlanUtilsFacts.ValidateDimension_spec (dims_of [3; 224])
              (dims_of [1; 1; 1]) (dims_of [8; 3; 512]) true) as [H _].
  assert (Hok : IsOk (PlanUtils.ValidateDimension (dims_of [3; 224])
                        (dims_of [1; 1; 1]) (dims_of [8; 3; 512]) true) = true).
  { apply H. split; [reflexivity|].
    change (Z.to_nat (PlanUtils.nbDims (dims_of [3; 224]))) with 2%nat.
    intros [|[|i]] Hi; [| |lia]; unfold in_range; vm_compute;
      split; discriminate. }
  revert Hok. vm_compute. intros _. reflexivity.
Defined.

Lemma ValidateDimension_list_instance :
  Forall (fun x => x <> -1) [3; 224] /\
  PlanUtils.ValidateDimension_list [3; 224] (dims_of [1; 1; 1])
    (dims_of [8; 3; 512]) true
  = PlanUtils.ValidateDimension (PlanUtils.mkDims 2 [3; 224])
      (dims_of [1; 1; 1]) (dims_of [8; 3; 512]) true.
Proof.
  assert (Hall : Forall (fun x => x <> -1) [3; 224])
    by (repeat constructor; lia).
  split; [exact Hall|].
  destruct (PlanUtilsFacts.ValidateDimension_list_spec [3; 224]
              (dims_of [1; 1; 1]) (dims_of [8; 3; 512]) true) as (_ & _ & H).
  exact (H Hall).
Defined.

Lemma ContainsWildcard_instance :
  PlanUtils.ContainsWildcard (-1) (dims_of [3; -1; 224]) = true.
Proof.
  apply PlanUtilsFacts.ContainsWildcard_spec; simpl; [lia | tauto].
Defined.

Lemma ValidateControlDimsDynamic_instance :
  status_code
    (PlanUtils.ValidateControlDimsDynamic (dims_of [-1; 1; 2]) true)
  = INTERNAL.
Proof.
  destruct (PlanUtilsFacts.ValidateControlDimsDynamic_spec
              (dims_of [-1; 1; 2]) true) as [_ H].
  apply H. reflexivity.
Defined.

Lemma plan_CompareDimsSupported_instance :
  PlanUtils.CompareDims (dims_of [3; 224]) [3; 224] = true /\
  PlanUtils.CompareDimsSupported sample_DimsListToString
    sample_DimsListToString "m" "b" (dims_of [3; 224]) [3; 224] true false
  = Status_Success.
Proof.
  split; [reflexivity|].
  destruct (PlanUtilsFacts.plan_CompareDimsSupported_spec
              sample_DimsListToString sample_DimsListToString "m" "b"
              (dims_of [3; 224]) [3; 224] true false) as (_ & _ & H).
  apply H; reflexivity.
Defined.

Example ShapeToString_of_four :
  TfUtils.ShapeToString [2; 3; 4; 5] 0 = "[2,4]" /\
  TfUtils.ShapeToString [-1; 3; 224; 224] 1 = "[3,224]".
Proof. split; reflexivity. Qed.
